(** * extrajs-view: the [View] class of [index.js]

    A [View] is a JavaScript function object ([class View extends Function])
    that carries a default display, reached by calling the view, and any
    number of named displays, stored by [addDisplay] as properties of the
    view.  This development embeds the class and the part of the JavaScript
    semantics it relies on: the text handed to the [Function] constructor,
    strict-mode property assignment on a function object, and default
    parameters. *)

From Stdlib Require Import ZArith Ascii String.
From stdpp Require Import base option list strings gmap.

Local Open Scope string_scope.

(** ** Source text *)

Module Text.

Definition backslash : ascii := "\"%char.
Definition backtick : ascii := "`"%char.
Definition dollar : ascii := "$"%char.
Definition lbrace : ascii := "{"%char.
Definition quote : ascii := "'"%char.
Definition CR : ascii := "013"%char.
Definition LF : ascii := "010"%char.

(** [s.replace(/c/g, rep)] for a one-character pattern [c] and a replacement
    [rep] without [$] patterns: every occurrence of [c] becomes [rep]. *)
Fixpoint replace_all (c : ascii) (rep : string) (s : string) : string :=
  match s with
  | EmptyString => EmptyString
  | String a s' =>
      if Ascii.eqb a c then rep +:+ replace_all c rep s'
      else String a (replace_all c rep s')
  end.

(** The two [replace] calls of the constructor, in the order of the source:
    backslashes are doubled first, then a backslash is put before every
    backtick. *)
Definition escape (s : string) : string :=
  replace_all backtick (String backslash (String backtick EmptyString))
    (replace_all backslash (String backslash (String backslash EmptyString)) s).

(** [escape] character by character: what the first character of a text
    becomes, in front of the escaped rest [tl]. *)
Definition escape_char (c : ascii) (tl : string) : string :=
  if Ascii.eqb c backslash then String backslash (String backslash tl)
  else if Ascii.eqb c backtick then String backslash (String backtick tl)
  else String c tl.

(** Does the text contain the two characters that open a template
    substitution? *)
Fixpoint has_substitution (s : string) : bool :=
  match s with
  | EmptyString => false
  | String a s' =>
      match s' with
      | String b _ => (Ascii.eqb a dollar && Ascii.eqb b lbrace) || has_substitution s'
      | EmptyString => false
      end
  end.

Fixpoint has_char (c : ascii) (s : string) : bool :=
  match s with
  | EmptyString => false
  | String a s' => Ascii.eqb a c || has_char c s'
  end.

(** What a template literal does to the line terminators of its text: the
    sequences CR LF and CR both stand for a single LF in the value of the
    literal. *)
Fixpoint normalize_newlines (s : string) : string :=
  match s with
  | EmptyString => EmptyString
  | String a s' =>
      if Ascii.eqb a CR then
        match s' with
        | String b s'' =>
            if Ascii.eqb b LF then String LF (normalize_newlines s'')
            else String LF (normalize_newlines s')
        | EmptyString => String LF EmptyString
        end
      else String a (normalize_newlines s')
  end.

(** The value of a template literal without substitutions.  [src] is the text
    that follows the opening backtick; the literal must be closed by a
    backtick that ends the text.  Of the escape sequences only the two that
    [escape] writes are read here.  [None] means that the text is not such a
    literal: it has a substitution, another escape sequence, text after the
    closing backtick, or no closing backtick. *)
Fixpoint template_value (src : string) : option string :=
  match src with
  | EmptyString => None
  | String c rest =>
      if Ascii.eqb c backtick then
        match rest with
        | EmptyString => Some EmptyString
        | String _ _ => None
        end
      else if Ascii.eqb c backslash then
        match rest with
        | String e rest' =>
            if Ascii.eqb e backslash || Ascii.eqb e backtick
            then String e <$> template_value rest'
            else None
        | EmptyString => None
        end
      else if Ascii.eqb c dollar then
        match rest with
        | String e _ =>
            if Ascii.eqb e lbrace then None
            else String c <$> template_value rest
        | EmptyString => None
        end
      else if Ascii.eqb c CR then
        match rest with
        | String e rest' =>
            if Ascii.eqb e LF then String LF <$> template_value rest'
            else String LF <$> template_value rest
        | EmptyString => None
        end
      else String c <$> template_value rest
  end.

Fixpoint strip_prefix (p s : string) : option string :=
  match p with
  | EmptyString => Some s
  | String a p' =>
      match s with
      | String b s' => if Ascii.eqb a b then strip_prefix p' s' else None
      | EmptyString => None
      end
  end.

(** The characters of a single-quoted string literal up to its closing
    quote, and the text after it.  A backslash or a line terminator inside
    the literal is not read here. *)
Fixpoint single_quoted (src : string) : option (string * string) :=
  match src with
  | EmptyString => None
  | String c rest =>
      if Ascii.eqb c quote then Some (EmptyString, rest)
      else if Ascii.eqb c backslash || Ascii.eqb c CR || Ascii.eqb c LF then None
      else
        match single_quoted rest with
        | Some (lit, rest') => Some (String c lit, rest')
        | None => None
        end
  end.

End Text.

(** ** Values, errors and results *)

(** References: [loc] names a View in the store of views, [fid] a function
    of the caller, [ref] an object of the caller. *)
Definition loc := positive.
Definition fid := nat.
Definition ref := nat.

Inductive value :=
| VUndefined
| VNull
| VBool (b : bool)
| VNum (n : Z)
| VStr (s : string)
| VObj (r : ref)
| VFunc (f : fid)
| VClosure (fn : fid) (this_arg : value)
| VView (v : loc)
| VPrototype (v : loc).

Inductive error :=
| ReferenceError (msg : string)
| TypeError
| SyntaxError
| Thrown (x : value).

Inductive result (A : Type) :=
| Ok (a : A)
| Throw (e : error).
Arguments Ok {A} a.
Arguments Throw {A} e.

(** A property of a View: its value and whether assignment may change it. *)
Record property := Property { pvalue : value; writable : bool }.

(** The code of a function made by the [Function] constructor, for the two
    bodies the View constructor writes; [Source] keeps any other body as
    text, to be run by the engine. *)
Inductive fbody :=
| ThrowReferenceError (msg : string)
| ReturnString (s : string)
| Source (src : string).

(** A View: its code, its own properties, and its prototype ([None] is
    [View.prototype], where every View starts). *)
Record View := MkView {
  code : fbody;
  props : gmap string property;
  proto : option value }.

(** A call [fn.call(this, ...args)] made by the code of the class. *)
Inductive event := ECall (f : fid) (this : value) (args : list value).

Definition is_object (x : value) : bool :=
  match x with
  | VObj _ | VFunc _ | VClosure _ _ | VView _ | VPrototype _ => true
  | _ => false
  end.

Definition is_string (x : value) : bool :=
  match x with VStr _ => true | _ => false end.

Definition missing_default_body : string :=
  "throw new ReferenceError('This view does not have a default display.')".

Definition _DATA : string := "_DATA".

(** The statement [throw new ReferenceError('msg')], giving [msg]. *)
Definition parse_throw (body : string) : option string :=
  match Text.strip_prefix "throw new ReferenceError('" body with
  | Some rest =>
      match Text.single_quoted rest with
      | Some (msg, tail) => if String.eqb tail ")" then Some msg else None
      | None => None
      end
  | None => None
  end.

(** The statement [return `...`] with a template without substitutions,
    giving the value of the template. *)
Definition parse_return (body : string) : option string :=
  match Text.strip_prefix "return `" body with
  | Some rest => Text.template_value rest
  | None => None
  end.

(** The own properties a function has when the [Function] constructor
    returns it: [length] and [name] cannot be assigned to, [prototype]
    can. *)
Definition function_props (v : loc) : gmap string property :=
  <["length" := Property (VNum 0) false]>
    (<["name" := Property (VStr "anonymous") false]>
       (<["prototype" := Property (VPrototype v) true]> ∅)).

(** Strict-mode assignment [o[k] = x] on a View (class bodies are strict
    code).  An own property is overwritten when it is writable and the
    assignment throws when it is not.  Without an own property the prototype
    chain decides: [__proto__] is an accessor whose setter replaces the
    prototype by an object or null and ignores other values; assigning to
    [arguments] or [caller] of a function throws; any other name becomes a
    new own property. *)
Definition put (o : View) (k : string) (x : value) : result View :=
  match props o !! k with
  | Some p =>
      if writable p
      then Ok (MkView (code o) (<[k := Property x true]> (props o)) (proto o))
      else Throw TypeError
  | None =>
      if String.eqb k "__proto__" then
        if is_object x || match x with VNull => true | _ => false end
        then Ok (MkView (code o) (props o) (Some x))
        else Ok o
      else if String.eqb k "arguments" || String.eqb k "caller" then Throw TypeError
      else Ok (MkView (code o) (<[k := Property x true]> (props o)) (proto o))
  end.

(** [o._DATA]: the own property, or [undefined]; no prototype of a View has
    a property of this name. *)
Definition get_DATA (o : View) : value :=
  match props o !! _DATA with
  | Some p => pvalue p
  | None => VUndefined
  end.

(** The value of [o[k]] when it does not come from the methods that
    [View.prototype], [Function.prototype] and [Object.prototype] provide:
    an own property, or the [__proto__] accessor once the prototype has been
    replaced. *)
Definition member (o : View) (k : string) : option value :=
  match props o !! k with
  | Some p => Some (pvalue p)
  | None => if String.eqb k "__proto__" then proto o else None
  end.

Section Machine.

(** The state of the caller's program, which the caller's functions read and
    change. *)
Variable World : Type.

(** The functions of the caller: [fn.name] and [fn.call(this, ...args)]. *)
Variable fn_name : fid -> string.
Variable fn_call : fid -> value -> list value -> World -> result value * World.

(** The JavaScript engine on a function body outside the two statements
    modelled here: does the body parse, and what does a call of the function
    with [this] and arguments do. *)
Variable engine_parses : string -> bool.
Variable engine_run : string -> value -> list value -> World -> result value * World.

(** The state: the world, the Views made so far, and the calls made so far.
    A reference that is not in the store is not a View, and using it as one
    throws. *)
Record state := MkState {
  world : World;
  views : gmap loc View;
  trace : list event }.

Definition M (A : Type) : Type := state -> result A * state.

Definition ret {A} (a : A) : M A := fun σ => (Ok a, σ).

Definition bind {A B} (m : M A) (k : A -> M B) : M B :=
  fun σ =>
    match m σ with
    | (Ok a, σ') => k a σ'
    | (Throw e, σ') => (Throw e, σ')
    end.

Definition throw {A} (e : error) : M A := fun σ => (Throw e, σ).

Definition lift {A} (r : result A) : M A := fun σ => (r, σ).

(** A computation of the caller or of the engine, which sees the world
    only. *)
Definition in_world {A} (f : World -> result A * World) : M A :=
  fun σ =>
    let (r, w) := f (world σ) in
    (r, MkState w (views σ) (trace σ)).

Notation "'let!' x ':=' m 'in' k" := (bind m (fun x => k))
  (at level 10, x name, m at level 100, k at level 200).

(** [o.replace(...).replace(...)] on an object [o], and the conversion of
    what comes out to a string by [+]: whatever the object's own [replace]
    does. *)
Variable object_replace : value -> state -> result string * World.

(** [v.k(...args)] for a name [k] found on the prototype chain only. *)
Variable inherited_call : string -> loc -> list value -> M value.

(** [fn.call(this, ...args)], recorded in the trace. *)
Definition call_function (f : fid) (this : value) (args : list value) : M value :=
  fun σ =>
    let (r, w) := fn_call f this args (world σ) in
    (r, MkState w (views σ) (trace σ ++ [ECall f this args])).

(** [new Function(body)]: the code of the new function, or a SyntaxError. *)
Definition Function_new (body : string) : result fbody :=
  match parse_throw body with
  | Some msg => Ok (ThrowReferenceError msg)
  | None =>
      match parse_return body with
      | Some s => Ok (ReturnString s)
      | None => if engine_parses body then Ok (Source body) else Throw SyntaxError
      end
  end.

(** [x.replace(/\\/g, '\\\\').replace(/`/g, '\\`')], as a string. *)
Definition escaped (x : value) : M string :=
  match x with
  | VStr s => ret (Text.escape s)
  | VUndefined | VNull | VBool _ | VNum _ => throw TypeError
  | _ => fun σ => let (r, w) := object_replace x σ in (r, MkState w (views σ) (trace σ))
  end.

(** The new function object, with the properties every function has. *)
Definition alloc (c : fbody) : M loc :=
  fun σ =>
    let v := fresh (dom (views σ)) in
    (Ok v, MkState (world σ) (<[v := MkView c (function_props v) None]> (views σ)) (trace σ)).

Definition assign (v : loc) (k : string) (x : value) : M unit :=
  fun σ =>
    match views σ !! v with
    | Some o =>
        match put o k x with
        | Ok o' => (Ok tt, MkState (world σ) (<[v := o']> (views σ)) (trace σ))
        | Throw e => (Throw e, σ)
        end
    | None => (Throw TypeError, σ)
    end.

Definition read_DATA (v : loc) : M value :=
  fun σ =>
    match views σ !! v with
    | Some o => (Ok (get_DATA o), σ)
    | None => (Throw TypeError, σ)
    end.

(** The constructor of the class: [new View(fn, data)]; [fn] is [None] for
    [null]. *)
Definition View_constructor (fn : option fid) (data : value) : M loc :=
  let! body :=
    match fn with
    | None => ret missing_default_body
    | Some f =>
        let! r := call_function f data [] in
        let! returned := escaped r in
        ret ("return `" +:+ returned +:+ "`")
    end in
  let! c := lift (Function_new body) in
  let! v := alloc c in
  let! _ := assign v _DATA data in
  ret v.

(** The method [addDisplay] itself, run with the View [v] as [this] and with
    [fn] and [this_arg] as arguments: [View.prototype.addDisplay.call(v, fn,
    this_arg)].  An absent second argument is [undefined], and the default of
    the parameter replaces [undefined].  The call [v.addDisplay(fn, this_arg)]
    looks the method up on [v] first: see [send_addDisplay]. *)
Definition addDisplay (v : loc) (fn : fid) (this_arg : value) : M loc :=
  let! this_arg :=
    match this_arg with
    | VUndefined => read_DATA v
    | _ => ret this_arg
    end in
  let! _ := assign v (fn_name fn) (VClosure fn this_arg) in
  ret v.

(** Running the code of a View: the call [v(...args)]. *)
Definition run (c : fbody) (this : value) (args : list value) : M value :=
  match c with
  | ThrowReferenceError msg => throw (ReferenceError msg)
  | ReturnString s => ret (VStr s)
  | Source src => in_world (engine_run src this args)
  end.

Definition call_view (v : loc) (this : value) (args : list value) : M value :=
  fun σ =>
    match views σ !! v with
    | Some o => run (code o) this args σ
    | None => (Throw TypeError, σ)
    end.

(** Calling a value: the closure of [addDisplay] calls its function with the
    context it was given, whatever [this] is. *)
Definition call_value (x : value) (this : value) (args : list value) : M value :=
  match x with
  | VClosure fn this_arg => call_function fn this_arg args
  | VFunc f => call_function f this args
  | VView w => call_view w this args
  | _ => throw TypeError
  end.

(** [v()] and [v.k(...args)]. *)
Definition invoke (v : loc) (args : list value) : M value :=
  call_view v VUndefined args.

Definition invoke_display (v : loc) (k : string) (args : list value) : M value :=
  fun σ =>
    match views σ !! v with
    | Some o =>
        match member o k with
        | Some x => call_value x (VView v) args σ
        | None =>
            if String.eqb k "__proto__" then (Throw TypeError, σ)
            else inherited_call k v args σ
        end
    | None => (Throw TypeError, σ)
    end.

End Machine.

Arguments MkState {World} world views trace.
Arguments world {World} s.
Arguments views {World} s.
Arguments trace {World} s.
Arguments ret {World A} a σ.
Arguments bind {World A B} m k σ.
Arguments throw {World A} e σ.
Arguments lift {World A} r σ.
Arguments in_world {World A} f σ.
Arguments call_function {World} fn_call f this args σ.
Arguments escaped {World} object_replace x σ.
Arguments alloc {World} c σ.
Arguments assign {World} v k x σ.
Arguments read_DATA {World} v σ.
Arguments View_constructor {World} fn_call engine_parses object_replace fn data σ.
Arguments addDisplay {World} fn_name v fn this_arg σ.
Arguments run {World} engine_run c this args σ.
Arguments call_view {World} engine_run v this args σ.
Arguments call_value {World} fn_call engine_run x this args σ.
Arguments invoke {World} engine_run v args σ.
Arguments invoke_display {World} fn_call engine_run inherited_call v k args σ.

(** The context a display added by [addDisplay(fn, this_arg)] to the View
    [o] runs in: [this_arg], or [o._DATA] when [this_arg] is [undefined]. *)
Definition bound_context (o : View) (this_arg : value) : value :=
  match this_arg with
  | VUndefined => get_DATA o
  | _ => this_arg
  end.

(** The View that [new View(fn, data)] stores in the state [σ], given the
    code the [Function] constructor made. *)
Definition fresh_view {World} (σ : state World) (c : fbody) (data : value) : View :=
  MkView c (<[_DATA := Property data true]> (function_props (fresh (dom (views σ))))) None.

(** The method [addDisplay] run on one View several times in a row, each
    time with a function and a [this_arg]; a run that throws leaves the state
    as it was and the sequence goes on.  For the calls [v.addDisplay(...)] in
    a row see [send_addDisplays]. *)
Fixpoint addDisplays {World} (fn_name : fid -> string) (v : loc)
    (calls : list (fid * value)) (σ : state World) : state World :=
  match calls with
  | [] => σ
  | (g, a) :: calls' => addDisplays fn_name v calls' (snd (addDisplay fn_name v g a σ))
  end.

(** What holds of every View the class makes: apart from [name] and [length]
    its own properties can be assigned to. *)
Definition view_inv (o : View) : Prop :=
  map_Forall (fun k p => writable p = true \/ k = "name" \/ k = "length") (props o).

Definition view_ok (o : View) : bool := bool_decide (view_inv o).

(** Values that are neither strings nor objects. *)
Definition is_plain_non_string (x : value) : bool :=
  match x with
  | VUndefined | VNull | VBool _ | VNum _ => true
  | _ => false
  end.

(** ** A program that uses the class

    One object [person = { name: ... }], a global counter [n], and the
    functions below.  [person] is [VObj 0]. *)
Module Demo.

Record globals := MkGlobals { person_name : string; n : nat }.

Definition person : value := VObj 0.

(** [function () { if (this !== person) throw new TypeError();
                   return '<span>' + this.name + '</span>' }] *)
Definition f_span : fid := 0.
(** [function () { return 'a\r\nb' }] *)
Definition f_crlf : fid := 1.
(** [function () { n++; return 'x' }] *)
Definition f_count : fid := 2.
(** [function () { throw 'no' }] *)
Definition f_throw : fid := 3.
(** [function () { return '${person.name}' }]: the text is in single
    quotes, so the function returns these characters as they are. *)
Definition f_interp : fid := 4.
(** [function answer() { return 42 }] *)
Definition f_answer : fid := 5.
(** [function who() { 'use strict'; return this === undefined ? 'nobody' : this }] *)
Definition f_who : fid := 6.
(** [function _DATA() { return '' }] *)
Definition f_DATA : fid := 7.
(** [function who() { return 'second' }] *)
Definition f_who2 : fid := 8.
(** [function () { return '\r' }] *)
Definition f_cr : fid := 9.

Definition crlf_text : string := String "a" (String Text.CR (String Text.LF "b")).
Definition lf_text : string := String "a" (String Text.LF "b").
Definition cr_text : string := String Text.CR "".
Definition newline_text : string := String Text.LF "".

Definition fn_name (f : fid) : string :=
  if decide (f = f_answer) then "answer"
  else if decide (f = f_who) then "who"
  else if decide (f = f_DATA) then "_DATA"
  else if decide (f = f_who2) then "who"
  else "".

Definition fn_call (f : fid) (this : value) (args : list value) (w : globals)
  : result value * globals :=
  if decide (f = f_span) then
    match this with
    | VObj 0 => (Ok (VStr ("<span>" +:+ person_name w +:+ "</span>")), w)
    | _ => (Throw TypeError, w)
    end
  else if decide (f = f_crlf) then
    (Ok (VStr crlf_text), w)
  else if decide (f = f_count) then (Ok (VStr "x"), MkGlobals (person_name w) (S (n w)))
  else if decide (f = f_throw) then (Throw (Thrown (VStr "no")), w)
  else if decide (f = f_interp) then (Ok (VStr "${person.name}"), w)
  else if decide (f = f_answer) then (Ok (VNum 42), w)
  else if decide (f = f_who) then
    match this with
    | VUndefined => (Ok (VStr "nobody"), w)
    | _ => (Ok this, w)
    end
  else if decide (f = f_DATA) then (Ok (VStr ""), w)
  else if decide (f = f_who2) then (Ok (VStr "second"), w)
  else if decide (f = f_cr) then (Ok (VStr cr_text), w)
  else (Ok VUndefined, w).

(** The engine on the one body with a substitution that this program
    leads to; other bodies do not occur. *)
Definition interp_body : string := "return `${person.name}`".

Definition engine_parses (body : string) : bool := String.eqb body interp_body.

Definition engine_run (body : string) (this : value) (args : list value) (w : globals)
  : result value * globals :=
  if String.eqb body interp_body then (Ok (VStr (person_name w)), w)
  else (Throw SyntaxError, w).

(** No object of this program has a [replace] method, and no method of the
    prototypes is called. *)
Definition object_replace (x : value) (σ : state globals) : result string * globals :=
  (Throw TypeError, world σ).

Definition inherited_call (k : string) (v : loc) (args : list value) : M globals value :=
  throw TypeError.

Definition new := View_constructor (World := globals) fn_call engine_parses object_replace.
Definition add := addDisplay (World := globals) fn_name.
Definition call := invoke (World := globals) engine_run.
Definition call_display := invoke_display (World := globals) fn_call engine_run inherited_call.

Definition start : state globals := MkState (MkGlobals "Alice" 0) ∅ [].

(** The first View made from [start]. *)
Definition v1 : loc := fresh (dom (views start)).

(** The state after running [m], whatever it returns. *)
Definition after {A} (m : M globals A) (σ : state globals) : state globals := snd (m σ).

(** [person.name = s] *)
Definition rename (s : string) (σ : state globals) : state globals :=
  MkState (MkGlobals s (n (world σ))) (views σ) (trace σ).

End Demo.

(** ** Names a View does not give up *)

(** The names of the properties of a function object that strict code
    cannot assign to: see [put]. *)
Definition reserved_name (k : string) : bool :=
  String.eqb k "name" || String.eqb k "length" ||
  String.eqb k "arguments" || String.eqb k "caller".

(** A View still has the read-only [name] and [length] the [Function]
    constructor gave it, and has no [arguments] or [caller] of its own. *)
Definition view_sealed (o : View) : Prop :=
  (exists x, props o !! "name" = Some (Property x false)) /\
  (exists x, props o !! "length" = Some (Property x false)) /\
  props o !! "arguments" = None /\
  props o !! "caller" = None.

(** ** The other version of the class

    The second file of the repository holds a version of [View] whose
    constructor checks that the default display returns a string and, without
    a default display, uses [data.toString()].  Its [addDisplay] is the one
    above, word for word. *)
Module Legacy.

Section Machine.

Context {World : Type}.
Variable fn_call : fid -> value -> list value -> World -> result value * World.
Variable engine_parses : string -> bool.

(** [x.toString()] for a number or an object [x]: the method of the engine,
    or the one the object brings. *)
Variable engine_toString : value -> state World -> result value * World.

Local Notation "'let!' x ':=' m 'in' k" := (bind m (fun x => k))
  (at level 10, x name, m at level 100, k at level 200).

(** [(function () { return this.toString() }).call(x)] in strict code:
    [this] is [x] itself. *)
Definition toString (x : value) : M World value :=
  match x with
  | VUndefined | VNull => throw TypeError
  | VStr s => ret (VStr s)
  | VBool b => ret (VStr (if b then "true" else "false"))
  | _ => fun σ =>
      let (r, w) := engine_toString x σ in (r, MkState w (views σ) (trace σ))
  end.

(** The function whose result the constructor puts between the backticks:
    [generator.call(data)], the check of [typeof returned], and the two
    [replace] calls.  The message of the TypeError is 'The passed display
    does not return a string.' *)
Definition generated (fn : option fid) (data : value) : M World string :=
  let! returned :=
    match fn with
    | Some f => call_function fn_call f data []
    | None => toString data
    end in
  match returned with
  | VStr s => ret (Text.escape s)
  | _ => throw TypeError
  end.

(** [new View(fn, data)]; [fn] is [None] for [null]. *)
Definition View_constructor (fn : option fid) (data : value) : M World loc :=
  let! returned := generated fn data in
  let! c := lift (Function_new engine_parses ("return `" +:+ returned +:+ "`")) in
  let! v := alloc c in
  let! _ := assign v _DATA data in
  ret v.

End Machine.

End Legacy.

(** The program of [Demo] with the other version of the class; it calls
    [toString] on [person] only, a plain object. *)
Module LegacyDemo.

Definition engine_toString (x : value) (σ : state Demo.globals)
  : result value * Demo.globals :=
  (Ok (VStr "[object Object]"), world σ).

Definition new :=
  Legacy.View_constructor (World := Demo.globals)
    Demo.fn_call Demo.engine_parses engine_toString.

End LegacyDemo.

(** The program of [Demo] with one more function, [function length() {}],
    and a second View. *)
Module MoreDemo.

Definition f_length : fid := 10.

Definition fn_name (f : fid) : string :=
  if decide (f = f_length) then "length" else Demo.fn_name f.

Definition add := addDisplay (World := Demo.globals) fn_name.
Definition adds := addDisplays (World := Demo.globals) fn_name.

(** The second View made from [Demo.start]. *)
Definition v2 : loc := 2%positive.

End MoreDemo.

(** ** The call [v.addDisplay(...)] *)

(** A name is plain when a display of that name meets nothing the View has
    already: not the four names of [reserved_name], not the method
    [addDisplay], not the accessor [__proto__], not the field [_DATA]. *)
Definition plain_name (k : string) : bool :=
  negb (reserved_name k || String.eqb k "addDisplay" ||
        String.eqb k "__proto__" || String.eqb k _DATA).

(** A View as the constructor made it for the data [d] and as displays of
    plain names leave it: its properties can be assigned to except [name]
    and [length], it has no property [addDisplay] of its own, its prototype
    is [View.prototype], and its [_DATA] is [d]. *)
Definition intact (d : value) (o : View) : Prop :=
  view_inv o /\ view_sealed o /\
  props o !! "addDisplay" = None /\ proto o = None /\ get_DATA o = d.

Section Send.

Context {World : Type}.
Variable fn_name : fid -> string.
Variable fn_call : fid -> value -> list value -> World -> result value * World.
Variable engine_run : string -> value -> list value -> World -> result value * World.
Variable inherited_call : string -> loc -> list value -> M World value.

(** The call [v.addDisplay(fn)], with [this_arg] absent, or
    [v.addDisplay(fn, this_arg)].  The property [addDisplay] is looked up on
    [v]: a property of [v] itself, which a display of that name is, is found
    first and is called instead of the method; otherwise the prototype
    decides.  With [View.prototype] the method runs and returns [v].  With a
    closure of [addDisplay] as prototype, which a display named [__proto__]
    leaves, or with [null], no [addDisplay] is found and the call throws a
    TypeError.  Any other prototype is left to [inherited_call]. *)
Definition send_addDisplay (v : loc) (fn : fid) (this_arg : option value)
  : M World value :=
  fun σ =>
    match views σ !! v with
    | Some o =>
        match props o !! "addDisplay", proto o with
        | None, None =>
            let (r, σ') := addDisplay fn_name v fn (default VUndefined this_arg) σ in
            (match r with Ok w => Ok (VView w) | Throw e => Throw e end, σ')
        | None, Some (VClosure _ _) | None, Some VNull => (Throw TypeError, σ)
        | _, _ =>
            invoke_display fn_call engine_run inherited_call v "addDisplay"
              (VFunc fn :: match this_arg with Some a => [a] | None => [] end) σ
        end
    | None => (Throw TypeError, σ)
    end.

(** Calls [v.addDisplay(...)] in a row on one View; a call that throws
    leaves the Views as they were and the sequence goes on. *)
Fixpoint send_addDisplays (v : loc) (calls : list (fid * option value))
    (σ : state World) : state World :=
  match calls with
  | [] => σ
  | (g, a) :: calls' => send_addDisplays v calls' (snd (send_addDisplay v g a σ))
  end.

End Send.

(** The context of a display registered on a View with data [d] by
    [v.addDisplay(g)] or [v.addDisplay(g, other)]. *)
Definition context_for (d : value) (other : option value) : value :=
  match other with
  | None | Some VUndefined => d
  | Some x => x
  end.

(** The program of [Demo], its calls of [addDisplay], and two functions named
    [addDisplay]: [function addDisplay() { return 'first' }] and
    [function addDisplay() { return 'second' }]. *)
Module Calls.

Definition send :=
  send_addDisplay (World := Demo.globals)
    Demo.fn_name Demo.fn_call Demo.engine_run Demo.inherited_call.

Definition sends :=
  send_addDisplays (World := Demo.globals)
    Demo.fn_name Demo.fn_call Demo.engine_run Demo.inherited_call.

Definition f_first : fid := 11.
Definition f_second : fid := 12.

Definition fn_name (f : fid) : string :=
  if decide (f = f_first) then "addDisplay"
  else if decide (f = f_second) then "addDisplay"
  else MoreDemo.fn_name f.

Definition fn_call (f : fid) (this : value) (args : list value) (w : Demo.globals)
  : result value * Demo.globals :=
  if decide (f = f_first) then (Ok (VStr "first"), w)
  else if decide (f = f_second) then (Ok (VStr "second"), w)
  else Demo.fn_call f this args w.

Definition shadow_send :=
  send_addDisplay (World := Demo.globals)
    fn_name fn_call Demo.engine_run Demo.inherited_call.

Definition shadow_sends :=
  send_addDisplays (World := Demo.globals)
    fn_name fn_call Demo.engine_run Demo.inherited_call.

Definition call_display :=
  invoke_display (World := Demo.globals) fn_call Demo.engine_run Demo.inherited_call.

End Calls.

(** * Properties *)

(** ** Escaping and reading back *)

Section TextFacts.
Import Text.

Lemma app_cons a s t : String a s +:+ t = String a (s +:+ t).
Proof. reflexivity. Qed.

Lemma escape_cons c s : escape (String c s) = escape_char c (escape s).
Proof.
  unfold escape, escape_char. simpl.
  destruct (Ascii.eqb_spec c backslash) as [->|Hbs]; [reflexivity|].
  simpl. destruct (Ascii.eqb c backtick); reflexivity.
Qed.

Lemma has_substitution_skip a s :
  a <> dollar -> has_substitution (String a s) = has_substitution s.
Proof.
  intros Ha. destruct s as [|b s]; [reflexivity|].
  apply Ascii.eqb_neq in Ha. cbn [has_substitution]. rewrite Ha. reflexivity.
Qed.

Lemma has_substitution_dollar b s :
  has_substitution (String dollar (String b s)) =
  Ascii.eqb b lbrace || has_substitution (String b s).
Proof. reflexivity. Qed.

Lemma normalize_newlines_skip a s :
  a <> CR -> normalize_newlines (String a s) = String a (normalize_newlines s).
Proof.
  intros Ha. apply Ascii.eqb_neq in Ha. cbn [normalize_newlines].
  rewrite Ha. reflexivity.
Qed.

Lemma normalize_newlines_CR b s :
  b <> LF ->
  normalize_newlines (String CR (String b s)) =
  String LF (normalize_newlines (String b s)).
Proof.
  intros Hb. apply Ascii.eqb_neq in Hb.
  change (normalize_newlines (String CR (String b s))) with
    (if Ascii.eqb b LF then String LF (normalize_newlines s)
     else String LF (normalize_newlines (String b s))).
  rewrite Hb. reflexivity.
Qed.

Lemma template_value_plain c rest :
  c <> backtick -> c <> backslash -> c <> dollar -> c <> CR ->
  template_value (String c rest) = String c <$> template_value rest.
Proof.
  intros H1 H2 H3 H4. apply Ascii.eqb_neq in H1, H2, H3, H4.
  cbn [template_value]. rewrite H1, H2, H3, H4. reflexivity.
Qed.

Lemma template_value_escaped e rest :
  e = backslash \/ e = backtick ->
  template_value (String backslash (String e rest)) =
  String e <$> template_value rest.
Proof. intros [->| ->]; reflexivity. Qed.

Lemma template_value_dollar e rest :
  e <> lbrace ->
  template_value (String dollar (String e rest)) =
  String dollar <$> template_value (String e rest).
Proof.
  intros He. apply Ascii.eqb_neq in He.
  change (template_value (String dollar (String e rest))) with
    (if Ascii.eqb e lbrace then None
     else String dollar <$> template_value (String e rest)).
  rewrite He. reflexivity.
Qed.

Lemma template_value_CR e rest :
  e <> LF ->
  template_value (String CR (String e rest)) =
  String LF <$> template_value (String e rest).
Proof.
  intros He. apply Ascii.eqb_neq in He.
  change (template_value (String CR (String e rest))) with
    (if Ascii.eqb e LF then String LF <$> template_value rest
     else String LF <$> template_value (String e rest)).
  rewrite He. reflexivity.
Qed.

(** An escaped text followed by the closing backtick starts with the first
    character of the text, or with a backslash when that is a backtick. *)
Lemma escape_head b s :
  exists tl,
    escape (String b s) +:+ "`" =
    String (if Ascii.eqb b backtick then backslash else b) tl.
Proof.
  rewrite escape_cons. unfold escape_char.
  destruct (Ascii.eqb_spec b backslash) as [->|]; [eexists; reflexivity|].
  destruct (Ascii.eqb b backtick); eexists; reflexivity.
Qed.

Ltac by_cases_on_result :=
  cbn [orb];
  repeat match goal with
  | |- context [if ?cond then _ else _] => destruct cond
  end; reflexivity.

Lemma template_value_escape_aux n : forall s, String.length s <= n ->
  template_value (escape s +:+ "`") =
  if has_substitution s then None else Some (normalize_newlines s).
Proof.
  induction n as [|n IH]; intros s Hn.
  - destruct s; [reflexivity | simpl in Hn; lia].
  - destruct s as [|c s]; [reflexivity|].
    simpl in Hn. assert (Hs : String.length s <= n) by lia.
    destruct (Ascii.eqb_spec c backslash) as [->|Hbs].
    { rewrite has_substitution_skip, normalize_newlines_skip by discriminate.
      rewrite escape_cons. unfold escape_char. rewrite Ascii.eqb_refl, !app_cons.
      rewrite template_value_escaped by auto. rewrite (IH s Hs).
      by_cases_on_result. }
    destruct (Ascii.eqb_spec c backtick) as [->|Hbt].
    { rewrite has_substitution_skip, normalize_newlines_skip by discriminate.
      rewrite escape_cons. unfold escape_char.
      cbn [Ascii.eqb Bool.eqb backtick backslash andb].
      rewrite !app_cons.
      rewrite template_value_escaped by auto. rewrite (IH s Hs).
      by_cases_on_result. }
    destruct (Ascii.eqb_spec c dollar) as [->|Hd].
    { rewrite normalize_newlines_skip by discriminate.
      destruct s as [|b s]; [reflexivity|].
      rewrite has_substitution_dollar.
      rewrite (escape_cons dollar). unfold escape_char at 1.
      cbn [Ascii.eqb Bool.eqb dollar backtick backslash andb]. rewrite app_cons.
      destruct (escape_head b s) as [tl Htl].
      specialize (IH (String b s) Hs). rewrite Htl in *.
      destruct (Ascii.eqb_spec b lbrace) as [->|Hb].
      - reflexivity.
      - rewrite template_value_dollar.
        + rewrite IH. by_cases_on_result.
        + destruct (Ascii.eqb_spec b backtick); [discriminate | assumption]. }
    destruct (Ascii.eqb_spec c CR) as [->|Hcr].
    { rewrite has_substitution_skip by discriminate.
      rewrite (escape_cons CR). unfold escape_char at 1.
      cbn [Ascii.eqb Bool.eqb CR backtick backslash andb]. rewrite app_cons.
      destruct s as [|b s]; [reflexivity|].
      destruct (Ascii.eqb_spec b LF) as [->|Hlf].
      - rewrite has_substitution_skip by discriminate.
        rewrite escape_cons. unfold escape_char.
        cbn [Ascii.eqb Bool.eqb LF backtick backslash andb]. rewrite app_cons.
        change (template_value (String CR (String LF (escape s +:+ "`"))))
          with (String LF <$> template_value (escape s +:+ "`")).
        rewrite (IH s) by (simpl in Hs; lia).
        change (normalize_newlines (String CR (String LF s)))
          with (String LF (normalize_newlines s)).
        by_cases_on_result.
      - rewrite normalize_newlines_CR by assumption.
        destruct (escape_head b s) as [tl Htl].
        specialize (IH (String b s) Hs). rewrite Htl in *.
        rewrite template_value_CR.
        + rewrite IH. by_cases_on_result.
        + destruct (Ascii.eqb_spec b backtick); [discriminate | assumption]. }
    rewrite has_substitution_skip, normalize_newlines_skip by assumption.
    rewrite escape_cons. unfold escape_char.
    apply Ascii.eqb_neq in Hbs, Hbt. rewrite Hbs, Hbt. rewrite app_cons.
    apply Ascii.eqb_neq in Hbs, Hbt.
    rewrite template_value_plain by assumption. rewrite (IH s Hs).
    by_cases_on_result.
Qed.

(** Reading back an escaped text: a text with a substitution is not a plain
    template; any other text comes back with its line terminators
    normalized. *)
Lemma template_value_escape s :
  template_value (escape s +:+ "`") =
  if has_substitution s then None else Some (normalize_newlines s).
Proof. exact (template_value_escape_aux (String.length s) s (le_n _)). Qed.

Lemma normalize_newlines_id s :
  has_char CR s = false -> normalize_newlines s = s.
Proof.
  induction s as [|a s IH]; [reflexivity|].
  cbn [has_char]. intros H. apply orb_false_elim in H as [Ha Hs].
  cbn [normalize_newlines]. rewrite Ha, (IH Hs). reflexivity.
Qed.

(** Without a substitution and without a carriage return, escaping and
    reading back give the text itself. *)
Lemma template_value_escape_id s :
  has_substitution s = false -> has_char CR s = false ->
  template_value (escape s +:+ "`") = Some s.
Proof.
  intros Hs Hc. rewrite template_value_escape, Hs, normalize_newlines_id by assumption.
  reflexivity.
Qed.

End TextFacts.

(** ** The constructor, [addDisplay] and the calls *)

Section Properties.

Context {World : Type}.
Variable fn_name : fid -> string.
Variable fn_call : fid -> value -> list value -> World -> result value * World.
Variable engine_parses : string -> bool.
Variable engine_run : string -> value -> list value -> World -> result value * World.
Variable object_replace : value -> state World -> result string * World.
Variable inherited_call : string -> loc -> list value -> M World value.

Abbreviation new := (View_constructor fn_call engine_parses object_replace).
Abbreviation add := (addDisplay fn_name).
Abbreviation call := (invoke engine_run).
Abbreviation call_display := (invoke_display fn_call engine_run inherited_call).
Abbreviation apply_fn := (call_function fn_call).

Implicit Types (σ : state World) (o : View) (v : loc) (x d : value) (k : string).

Lemma Function_new_missing_default :
  Function_new engine_parses missing_default_body =
  Ok (ThrowReferenceError "This view does not have a default display.").
Proof. reflexivity. Qed.

Lemma Function_new_return s :
  Text.has_substitution s = false ->
  Function_new engine_parses ("return `" +:+ Text.escape s +:+ "`") =
  Ok (ReturnString (Text.normalize_newlines s)).
Proof.
  intros Hs. unfold Function_new.
  change (parse_throw ("return `" +:+ Text.escape s +:+ "`")) with (@None string).
  change (parse_return ("return `" +:+ Text.escape s +:+ "`"))
    with (Text.template_value (Text.escape s +:+ "`")).
  rewrite template_value_escape, Hs. reflexivity.
Qed.

Lemma Function_new_substitution s :
  Text.has_substitution s = true ->
  Function_new engine_parses ("return `" +:+ Text.escape s +:+ "`") =
  if engine_parses ("return `" +:+ Text.escape s +:+ "`")
  then Ok (Source ("return `" +:+ Text.escape s +:+ "`")) else Throw SyntaxError.
Proof.
  intros Hs. unfold Function_new.
  change (parse_throw ("return `" +:+ Text.escape s +:+ "`")) with (@None string).
  change (parse_return ("return `" +:+ Text.escape s +:+ "`"))
    with (Text.template_value (Text.escape s +:+ "`")).
  rewrite template_value_escape, Hs. reflexivity.
Qed.

Lemma function_props_DATA v : function_props v !! _DATA = None.
Proof. reflexivity. Qed.

(** Storing a new function and giving it its [_DATA]. *)
Lemma alloc_assign_DATA σ c d :
  bind (alloc c) (fun v => bind (assign v _DATA d) (fun _ => ret v)) σ =
  (Ok (fresh (dom (views σ))),
   MkState (world σ) (<[fresh (dom (views σ)) := fresh_view σ c d]> (views σ)) (trace σ)).
Proof.
  unfold bind, alloc, assign, ret. cbn [views world trace].
  rewrite lookup_insert_eq. unfold put. cbn [props code proto].
  rewrite function_props_DATA. cbn.
  rewrite insert_insert_eq. reflexivity.
Qed.

(** The constructor without a default display, step by step. *)
Lemma View_constructor_null d σ :
  new None d σ =
  (Ok (fresh (dom (views σ))),
   MkState (world σ)
     (<[fresh (dom (views σ)) :=
          fresh_view σ (ThrowReferenceError "This view does not have a default display.") d]>
        (views σ))
     (trace σ)).
Proof.
  unfold View_constructor. unfold bind at 1. unfold ret at 1.
  unfold bind at 1. unfold lift. rewrite Function_new_missing_default.
  apply alloc_assign_DATA.
Qed.

(** [escaped] leaves the views and the trace as they are. *)
Lemma escaped_frame x σ :
  views (snd (escaped object_replace x σ)) = views σ /\
  trace (snd (escaped object_replace x σ)) = trace σ.
Proof.
  destruct x; cbn; try (split; reflexivity);
    destruct (object_replace _ σ); split; reflexivity.
Qed.

(** The constructor with a default display, step by step. *)
Lemma View_constructor_Some f d σ :
  new (Some f) d σ =
  let σ1 := snd (apply_fn f d [] σ) in
  match fst (apply_fn f d [] σ) with
  | Throw e => (Throw e, σ1)
  | Ok x =>
      let σ2 := snd (escaped object_replace x σ1) in
      match fst (escaped object_replace x σ1) with
      | Throw e => (Throw e, σ2)
      | Ok t =>
          match Function_new engine_parses ("return `" +:+ t +:+ "`") with
          | Throw e => (Throw e, σ2)
          | Ok c =>
              (Ok (fresh (dom (views σ2))),
               MkState (world σ2)
                 (<[fresh (dom (views σ2)) := fresh_view σ2 c d]> (views σ2))
                 (trace σ2))
          end
      end
  end.
Proof.
  unfold View_constructor. unfold bind at 1. unfold bind at 1.
  destruct (apply_fn f d [] σ) as [[x|e] σ1]; [|reflexivity].
  cbn [fst snd]. unfold bind at 1.
  destruct (escaped object_replace x σ1) as [[t|e] σ2]; [|reflexivity].
  cbn [fst snd]. unfold ret at 1. unfold bind at 1, lift.
  destruct (Function_new _ _) as [c|e]; [|reflexivity].
  apply alloc_assign_DATA.
Qed.

Lemma apply_fn_eq f this args σ :
  apply_fn f this args σ =
  (fst (fn_call f this args (world σ)),
   MkState (snd (fn_call f this args (world σ))) (views σ)
     (trace σ ++ [ECall f this args])).
Proof. unfold call_function. destruct (fn_call _ _ _ _); reflexivity. Qed.

(** A default display that returns a string without substitution: the View
    returns that string with its line terminators normalized. *)
Lemma View_constructor_plain f d σ s :
  fst (fn_call f d [] (world σ)) = Ok (VStr s) ->
  Text.has_substitution s = false ->
  let σ1 := snd (apply_fn f d [] σ) in
  new (Some f) d σ =
  (Ok (fresh (dom (views σ))),
   MkState (world σ1)
     (<[fresh (dom (views σ)) := fresh_view σ (ReturnString (Text.normalize_newlines s)) d]>
        (views σ))
     (trace σ ++ [ECall f d []])).
Proof.
  intros Hf Hs σ1. rewrite View_constructor_Some. subst σ1.
  rewrite apply_fn_eq. cbn [fst snd]. rewrite Hf.
  cbn [escaped ret fst snd]. rewrite (Function_new_return s Hs).
  reflexivity.
Qed.


(** [addDisplay], step by step. *)
Lemma addDisplay_eq v g a σ :
  add v g a σ =
  match views σ !! v with
  | Some o =>
      match put o (fn_name g) (VClosure g (bound_context o a)) with
      | Ok o' => (Ok v, MkState (world σ) (<[v := o']> (views σ)) (trace σ))
      | Throw e => (Throw e, σ)
      end
  | None => (Throw TypeError, σ)
  end.
Proof.
  unfold addDisplay, bind, read_DATA, assign, ret.
  destruct a; cbn [bound_context];
    destruct (views σ !! v) as [o|] eqn:Hv; rewrite ?Hv; try reflexivity;
    destruct (put o _ _); reflexivity.
Qed.

Lemma put_member o k x o' :
  put o k x = Ok o' -> is_object x = true -> member o' k = Some x.
Proof.
  unfold put, member. intros Hput Hx.
  destruct (props o !! k) as [p|] eqn:Hk.
  - destruct (writable p); [|discriminate].
    injection Hput as <-. cbn. rewrite lookup_insert_eq. reflexivity.
  - destruct (String.eqb k "__proto__") eqn:Hp.
    + rewrite Hx in Hput. cbn in Hput. injection Hput as <-. cbn.
      rewrite Hk. reflexivity.
    + destruct (_ || _); [discriminate|].
      injection Hput as <-. cbn. rewrite lookup_insert_eq. reflexivity.
Qed.

Lemma put_frame o k x o' :
  put o k x = Ok o' ->
  code o' = code o /\ forall k', k' <> k -> props o' !! k' = props o !! k'.
Proof.
  unfold put. intros Hput.
  destruct (props o !! k) as [p|] eqn:Hk.
  - destruct (writable p); [|discriminate].
    injection Hput as <-. cbn. split; [reflexivity|].
    intros k' Hne. rewrite lookup_insert_ne by congruence. reflexivity.
  - destruct (String.eqb k "__proto__").
    + destruct (_ || _); injection Hput as <-; split; reflexivity.
    + destruct (_ || _); [discriminate|].
      injection Hput as <-. cbn. split; [reflexivity|].
      intros k' Hne. rewrite lookup_insert_ne by congruence. reflexivity.
Qed.

Lemma put_view_inv o k x o' : view_inv o -> put o k x = Ok o' -> view_inv o'.
Proof.
  unfold put, view_inv. intros Hinv Hput.
  destruct (props o !! k) as [p|] eqn:Hk.
  - destruct (writable p); [|discriminate].
    injection Hput as <-. cbn. apply map_Forall_insert_2; auto.
  - destruct (String.eqb k "__proto__").
    + destruct (_ || _); injection Hput as <-; assumption.
    + destruct (_ || _); [discriminate|].
      injection Hput as <-. cbn. apply map_Forall_insert_2; auto.
Qed.

(** On a View of the class, assignment to a name succeeds unless the name
    is one of the four a function object does not let go of. *)
Lemma put_ok o k x :
  view_inv o ->
  k <> "name" -> k <> "length" -> k <> "arguments" -> k <> "caller" ->
  exists o', put o k x = Ok o'.
Proof.
  unfold put, view_inv. intros Hinv H1 H2 H3 H4.
  destruct (props o !! k) as [p|] eqn:Hk.
  - destruct (Hinv k p Hk) as [-> | [?|?]]; [eauto | contradiction..].
  - destruct (String.eqb k "__proto__").
    + destruct (_ || _); eauto.
    + apply String.eqb_neq in H3, H4. rewrite H3, H4. cbn. eauto.
Qed.

(** On the View the constructor makes, assignment to the four names
    throws. *)
Lemma put_reserved_name σ c d k x :
  k = "name" \/ k = "length" \/ k = "arguments" \/ k = "caller" ->
  put (fresh_view σ c d) k x = Throw TypeError.
Proof. intros [-> | [-> | [-> | ->]]]; reflexivity. Qed.

Lemma fresh_view_inv σ c d : view_inv (fresh_view σ c d).
Proof.
  unfold view_inv, fresh_view, function_props. cbn [props].
  repeat apply map_Forall_insert_2; auto.
  apply map_Forall_empty.
Qed.

(** The closure that [addDisplay] stores is what a call of the display
    runs. *)
Lemma call_display_closure σ v o k g t args :
  views σ !! v = Some o -> member o k = Some (VClosure g t) ->
  call_display v k args σ = apply_fn g t args σ.
Proof.
  intros Hv Hm. unfold invoke_display. rewrite Hv, Hm. reflexivity.
Qed.

Lemma call_display_after_add σ v o g a args r σ' w tr :
  views σ !! v = Some o ->
  add v g a σ = (Ok r, σ') ->
  r = v /\ world σ' = world σ /\ trace σ' = trace σ /\
  call_display v (fn_name g) args (MkState w (views σ') tr) =
  apply_fn g (bound_context o a) args (MkState w (views σ') tr).
Proof.
  intros Hv Hadd. rewrite addDisplay_eq, Hv in Hadd.
  destruct (put o _ _) as [o'|e] eqn:Hput; [|discriminate].
  injection Hadd as <- <-. repeat split.
  apply (call_display_closure _ _ o').
  - cbn. apply lookup_insert_eq.
  - apply (put_member _ _ _ _ Hput). reflexivity.
Qed.

(** What [addDisplay] leaves alone: the world, the trace, the other views,
    the code of the view and its properties under other names. *)
Lemma addDisplay_frame σ v o g a r σ' :
  views σ !! v = Some o ->
  add v g a σ = (Ok r, σ') ->
  world σ' = world σ /\ trace σ' = trace σ /\
  (forall v', v' <> v -> views σ' !! v' = views σ !! v') /\
  exists o', views σ' !! v = Some o' /\ code o' = code o /\
    forall k, k <> fn_name g -> props o' !! k = props o !! k.
Proof.
  intros Hv Hadd. rewrite addDisplay_eq, Hv in Hadd.
  destruct (put o _ _) as [o'|e] eqn:Hput; [|discriminate].
  injection Hadd as <- <-. cbn. repeat split.
  - intros v' Hne. rewrite lookup_insert_ne by congruence. reflexivity.
  - exists o'. rewrite lookup_insert_eq. split; [reflexivity|].
    apply (put_frame _ _ _ _ Hput).
Qed.

(** A display under another name leaves [_DATA] as it is. *)
Lemma addDisplay_keeps_DATA σ v o g a r σ' o' :
  views σ !! v = Some o ->
  add v g a σ = (Ok r, σ') ->
  views σ' !! v = Some o' ->
  fn_name g <> _DATA ->
  get_DATA o' = get_DATA o.
Proof.
  intros Hv Hadd Hv' Hne.
  destruct (addDisplay_frame _ _ _ _ _ _ _ Hv Hadd) as (_ & _ & _ & o2 & Ho2 & _ & Hk).
  rewrite Hv' in Ho2. injection Ho2 as <-.
  unfold get_DATA. rewrite Hk by congruence. reflexivity.
Qed.

(** A failed [addDisplay] changes nothing. *)
Lemma addDisplay_throw σ v g a e σ' : add v g a σ = (Throw e, σ') -> σ' = σ.
Proof.
  rewrite addDisplay_eq. destruct (views σ !! v) as [o|].
  - destruct (put o _ _); intros H; [discriminate | congruence].
  - congruence.
Qed.


(** The View the constructor returns satisfies [view_inv]. *)
Lemma View_constructor_view_inv fn d σ v σ' :
  new fn d σ = (Ok v, σ') ->
  exists o, views σ' !! v = Some o /\ view_inv o.
Proof.
  destruct fn as [f|].
  - rewrite View_constructor_Some. cbv zeta.
    destruct (fst (apply_fn f d [] σ)) as [x|]; [|discriminate].
    destruct (fst (escaped object_replace x _)); [|discriminate].
    destruct (Function_new _ _); [|discriminate].
    intros [= <- <-]. eexists. split; [apply lookup_insert_eq | apply fresh_view_inv].
  - rewrite View_constructor_null. intros [= <- <-].
    eexists. split; [apply lookup_insert_eq | apply fresh_view_inv].
Qed.

(** *** Calls of a View *)

Lemma call_ReturnString σ v o s args :
  views σ !! v = Some o -> code o = ReturnString s ->
  call v args σ = (Ok (VStr s), σ).
Proof. intros Hv Hc. unfold invoke, call_view. rewrite Hv, Hc. reflexivity. Qed.

Lemma call_ThrowReferenceError σ v o msg args :
  views σ !! v = Some o -> code o = ThrowReferenceError msg ->
  call v args σ = (Throw (ReferenceError msg), σ).
Proof. intros Hv Hc. unfold invoke, call_view. rewrite Hv, Hc. reflexivity. Qed.

Lemma call_Source σ v o src args :
  views σ !! v = Some o -> code o = Source src ->
  call v args σ = in_world (engine_run src VUndefined args) σ.
Proof. intros Hv Hc. unfold invoke, call_view. rewrite Hv, Hc. reflexivity. Qed.

(** A sequence of [addDisplay] calls keeps the View in the store, with the
    code it has. *)
Lemma addDisplays_code v calls : forall σ o,
  views σ !! v = Some o ->
  exists o', views (addDisplays fn_name v calls σ) !! v = Some o' /\ code o' = code o.
Proof.
  induction calls as [|[g a] calls IH]; intros σ o Hv; [eauto|].
  cbn [addDisplays].
  destruct (add v g a σ) as [[r|e] σ'] eqn:Hadd; cbn [snd].
  - destruct (addDisplay_frame _ _ _ _ _ _ _ Hv Hadd)
      as (_ & _ & _ & o1 & Ho1 & Hc1 & _).
    destruct (IH σ' o1 Ho1) as (o' & Ho' & Hc'). exists o'. split; congruence.
  - apply addDisplay_throw in Hadd as ->. eauto.
Qed.

(** Every View that the class makes and extends satisfies [view_inv]. *)
Lemma addDisplays_view_inv v calls : forall σ o,
  views σ !! v = Some o -> view_inv o ->
  exists o', views (addDisplays fn_name v calls σ) !! v = Some o' /\ view_inv o'.
Proof.
  induction calls as [|[g a] calls IH]; intros σ o Hv Hinv; [eauto|].
  cbn [addDisplays].
  destruct (add v g a σ) as [[r|e] σ'] eqn:Hadd; cbn [snd].
  - rewrite addDisplay_eq, Hv in Hadd.
    destruct (put o _ _) as [o1|] eqn:Hput; [|discriminate].
    injection Hadd as <- <-.
    apply (IH _ o1); [apply lookup_insert_eq | exact (put_view_inv _ _ _ _ Hinv Hput)].
  - apply addDisplay_throw in Hadd as ->. eauto.
Qed.

(** A sequence of [addDisplay] calls none of whose functions is named
    [_DATA] leaves the bound data as it is. *)
Lemma addDisplays_keep_DATA v calls : forall σ o,
  views σ !! v = Some o ->
  Forall (fun c => fn_name (fst c) <> _DATA) calls ->
  exists o', views (addDisplays fn_name v calls σ) !! v = Some o' /\
             get_DATA o' = get_DATA o.
Proof.
  induction calls as [|[g a] calls IH]; intros σ o Hv Hall; [eauto|].
  apply Forall_cons in Hall as [Hg Hall]. cbn [fst] in Hg. cbn [addDisplays].
  destruct (add v g a σ) as [[r|e] σ'] eqn:Hadd; cbn [snd].
  - destruct (addDisplay_frame _ _ _ _ _ _ _ Hv Hadd)
      as (_ & _ & _ & o1 & Ho1 & _ & _).
    pose proof (addDisplay_keeps_DATA _ _ _ _ _ _ _ _ Hv Hadd Ho1 Hg) as Hd.
    destruct (IH σ' o1 Ho1 Hall) as (o' & Ho' & Hd'). exists o'. split; congruence.
  - apply addDisplay_throw in Hadd as ->. eauto.
Qed.

Lemma View_constructor_trace f d σ :
  trace (snd (new (Some f) d σ)) = (trace σ ++ [ECall f d []])%list.
Proof.
  rewrite View_constructor_Some, apply_fn_eq. cbn [fst snd].
  destruct (fst (fn_call f d [] (world σ))) as [x|e]; [|reflexivity].
  match goal with |- context [escaped object_replace x ?s] =>
    destruct (escaped_frame x s) as [_ Ht]; destruct (escaped object_replace x s) as [[t|e] σ2]
  end; cbn [fst snd] in *; [|exact Ht].
  destruct (Function_new _ _); exact Ht.
Qed.

Lemma fresh_not_in σ : views σ !! fresh (dom (views σ)) = None.
Proof. apply not_elem_of_dom, is_fresh. Qed.

(** *** The default display *)

(** A default display whose string has no substitution: calling the View
    returns that string with its line terminators normalized, whatever the
    world is by then. *)
Lemma default_display_plain f d σ s w args :
  fst (fn_call f d [] (world σ)) = Ok (VStr s) ->
  Text.has_substitution s = false ->
  exists v, fst (new (Some f) d σ) = Ok v /\
    let σ' := snd (new (Some f) d σ) in
    call v args (MkState w (views σ') (trace σ')) =
    (Ok (VStr (Text.normalize_newlines s)), MkState w (views σ') (trace σ')).
Proof.
  intros Hf Hs. rewrite (View_constructor_plain f d σ s Hf Hs). cbn [fst snd].
  eexists. split; [reflexivity|]. cbn zeta.
  eapply call_ReturnString; [apply lookup_insert_eq | reflexivity].
Qed.

(** ... and that is the string itself when it has no carriage return. *)
Lemma default_display_identity f d σ s w args :
  fst (fn_call f d [] (world σ)) = Ok (VStr s) ->
  Text.has_substitution s = false ->
  Text.has_char Text.CR s = false ->
  exists v, fst (new (Some f) d σ) = Ok v /\
    let σ' := snd (new (Some f) d σ) in
    fst (call v args (MkState w (views σ') (trace σ'))) = Ok (VStr s).
Proof.
  intros Hf Hs Hc.
  destruct (default_display_plain f d σ s w args Hf Hs) as (v & Hv & Hcall).
  exists v. split; [exact Hv|]. cbn zeta in *. rewrite Hcall. cbn [fst].
  rewrite normalize_newlines_id by assumption. reflexivity.
Qed.

(** A default display whose string has a substitution: the View keeps the
    text of the function body, and every call hands it to the engine, in the
    world of that call. *)
Lemma default_display_substitution f d σ s w args :
  fst (fn_call f d [] (world σ)) = Ok (VStr s) ->
  Text.has_substitution s = true ->
  engine_parses ("return `" +:+ Text.escape s +:+ "`") = true ->
  exists v, fst (new (Some f) d σ) = Ok v /\
    let σ' := snd (new (Some f) d σ) in
    fst (call v args (MkState w (views σ') (trace σ'))) =
    fst (engine_run ("return `" +:+ Text.escape s +:+ "`") VUndefined args w).
Proof.
  intros Hf Hs Hp. rewrite View_constructor_Some, apply_fn_eq. cbn [fst snd]. rewrite Hf.
  cbn [escaped ret fst snd]. rewrite (Function_new_substitution s Hs), Hp.
  cbn [fst snd]. eexists. split; [reflexivity|]. cbn zeta.
  erewrite call_Source; [|apply lookup_insert_eq | reflexivity].
  unfold in_world. cbn [world]. destruct (engine_run _ _ _ _). reflexivity.
Qed.

(** *** Claims about the constructor *)

(** C2, as amended.  [new View(null, data)] raises no error, calls nothing and
    only stores the new View, which was not in the store before; the missing
    default is left for the call of the View.  [new View(fn, data)] with a
    function [fn] calls [fn] exactly once while it constructs, with context
    [data] and no arguments, and an error thrown by [fn] is thrown by the
    constructor. *)
Theorem construction_effects d σ :
  (exists v,
     views σ !! v = None /\
     new None d σ =
     (Ok v,
      MkState (world σ)
        (<[v := fresh_view σ
                  (ThrowReferenceError "This view does not have a default display.") d]>
           (views σ))
        (trace σ)))
  /\ forall f,
       trace (snd (new (Some f) d σ)) = (trace σ ++ [ECall f d []])%list /\
       match fst (fn_call f d [] (world σ)) with
       | Throw e => fst (new (Some f) d σ) = Throw e
       | Ok _ => True
       end.
Proof.
  split.
  - exists (fresh (dom (views σ))). split; [apply fresh_not_in | apply View_constructor_null].
  - intros f. split; [apply View_constructor_trace|].
    rewrite View_constructor_Some, apply_fn_eq. cbn [fst snd].
    destruct (fst (fn_call f d [] (world σ))); [exact I | reflexivity].
Qed.

(** C3.  For every data value [d], the View made by [new View(null, d)]
    throws the ReferenceError "This view does not have a default display."
    when it is called without selector: right after construction or after
    any sequence of [addDisplay] calls, in any world and with any arguments.
    The call changes nothing and calls nothing, so it never succeeds and
    never converts [d] to a string. *)
Theorem missing_default_display d σ calls w args :
  exists v,
    fst (new None d σ) = Ok v /\
    let σ' := addDisplays fn_name v calls (snd (new None d σ)) in
    call v args (MkState w (views σ') (trace σ')) =
    (Throw (ReferenceError "This view does not have a default display."),
     MkState w (views σ') (trace σ')).
Proof.
  rewrite View_constructor_null. cbn [fst snd]. eexists. split; [reflexivity|].
  cbn zeta.
  match goal with |- context [addDisplays fn_name ?v calls ?s] =>
    destruct (addDisplays_code v calls s (fresh_view σ
      (ThrowReferenceError "This view does not have a default display.") d))
      as (o' & Ho' & Hc'); [apply lookup_insert_eq|]
  end.
  eapply call_ThrowReferenceError; [exact Ho' | exact Hc'].
Qed.

(** *** Claims about named displays *)

(** C7, as amended.  No check is made on what a named display returns: after
    [v.addDisplay(g, a)] the call [v.n(args)] returns whatever [g] returns,
    a string or not, and throws only what [g] throws.  For a default display
    that returns undefined, null, a boolean or a number, it is the
    constructor [new View(fn, data)] that throws, a TypeError, after the one
    call of [fn]; no View is made. *)
Theorem non_string_results :
  (forall σ v o g a args r σ',
     views σ !! v = Some o ->
     add v g a σ = (Ok r, σ') ->
     fst (call_display v (fn_name g) args σ') =
     fst (fn_call g (bound_context o a) args (world σ')))
  /\ (forall f d σ x,
        fst (fn_call f d [] (world σ)) = Ok x ->
        is_plain_non_string x = true ->
        new (Some f) d σ = (Throw TypeError, snd (apply_fn f d [] σ))).
Proof.
  split.
  - intros σ v o g a args r σ' Hv Hadd.
    destruct (call_display_after_add σ v o g a args r σ' (world σ') (trace σ') Hv Hadd)
      as (_ & _ & _ & Hcall).
    destruct σ' as [w' vs' tr']. cbn [world views trace] in *.
    rewrite Hcall, apply_fn_eq. reflexivity.
  - intros f d σ x Hf Hx. rewrite View_constructor_Some, apply_fn_eq. cbn [fst snd].
    rewrite Hf. destruct x; try discriminate; reflexivity.
Qed.

End Properties.

(** ** The program of [Demo], run *)

Section DemoRuns.
Import Demo.

(** C1, on the code: the default display [f_crlf] returns the four
    characters "a", CR, LF, "b", and the View made from it returns the three
    characters "a", LF, "b".  The constructor puts the string between
    backticks in the text of a function body, after escaping backslashes and
    backticks only, and a template literal reads CR LF as LF. *)
Theorem default_display_crlf :
  fst (fn_call f_crlf person [] (world start)) = Ok (VStr crlf_text) /\
  fst (new (Some f_crlf) person start) = Ok v1 /\
  fst (call v1 [] (after (new (Some f_crlf) person) start)) = Ok (VStr lf_text) /\
  lf_text <> crlf_text.
Proof. repeat split; try reflexivity. discriminate. Qed.

(** C2, counterexample.  Constructing a View with the default display
    [f_count] calls that function, which is seen in the trace and in the
    counter it increments; constructing one with [f_throw] raises what the
    function throws. *)
Lemma construction_not_silent :
  ~ (trace (after (new (Some f_count) person) start) = trace start) /\
  ~ (world (after (new (Some f_count) person) start) = world start) /\
  ~ (exists v, fst (new (Some f_throw) person start) = Ok v).
Proof.
  repeat split.
  - discriminate.
  - discriminate.
  - intros [v Hv]. discriminate Hv.
Qed.

(** C4, counterexample.  The View is bound to the string "data" and [who] is
    added with [undefined] as [this_arg]: the call [v.who()] runs [who] with
    context "data", not with context [undefined]. *)
Lemma addDisplay_undefined_this_arg :
  let σ1 := after (new None (VStr "data")) start in
  let σ2 := after (add v1 f_who VUndefined) σ1 in
  fst (add v1 f_who VUndefined σ1) = Ok v1 /\
  Calls.send v1 f_who (Some VUndefined) σ1 = (Ok (VView v1), σ2) /\
  fst (call_display v1 (fn_name f_who) [] σ2) = Ok (VStr "data") /\
  fst (call_display v1 (fn_name f_who) [] σ2) <>
  fst (call_function fn_call f_who VUndefined [] σ2).
Proof. repeat split; try reflexivity. discriminate. Qed.

(** C6, counterexample.  [f_span] has the empty name and [addDisplay]
    accepts it: the call returns the View and raises nothing. *)
Lemma addDisplay_accepts_empty_name :
  fn_name f_span = "" /\
  fst (add v1 f_span VUndefined (after (new None person) start)) = Ok v1 /\
  fst (Calls.send v1 f_span None (after (new None person) start)) = Ok (VView v1) /\
  ~ (exists e, fst (add v1 f_span VUndefined (after (new None person) start)) = Throw e).
Proof.
  repeat split.
  intros [e He]. discriminate He.
Qed.

(** C7, counterexample.  The named display [answer] returns the number 42,
    and so does the call [v.answer()]: no error is raised. *)
Lemma named_display_returns_number :
  let σ1 := after (new None person) start in
  let σ2 := after (add v1 f_answer VUndefined) σ1 in
  fst (call_display v1 (fn_name f_answer) [] σ2) = Ok (VNum 42) /\
  is_string (VNum 42) = false /\
  ~ (exists e, fst (call_display v1 (fn_name f_answer) [] σ2) = Throw e).
Proof.
  repeat split.
  intros [e He]. discriminate He.
Qed.

(** C8, on the code: a display whose function is named [_DATA] takes the
    place of the bound data.  After [v.addDisplay(function _DATA() {...})]
    the property [v._DATA] is the closure of that function and no longer
    the data given to the constructor, and a display added afterwards runs
    with the closure as its context. *)
Theorem addDisplay_overwrites_DATA :
  let σ1 := after (new None (VStr "data")) start in
  let σ2 := after (add v1 f_DATA VUndefined) σ1 in
  let σ3 := after (add v1 f_who VUndefined) σ2 in
  get_DATA <$> views σ1 !! v1 = Some (VStr "data") /\
  fst (add v1 f_DATA VUndefined σ1) = Ok v1 /\
  get_DATA <$> views σ2 !! v1 = Some (VClosure f_DATA (VStr "data")) /\
  fst (call_display v1 (fn_name f_who) [] σ3) = Ok (VClosure f_DATA (VStr "data")).
Proof. repeat split. Qed.

(** C9, on the code: the default display [f_interp] returns the characters
    of a substitution, [${person.name}].  It is called once, by the
    constructor, but the string it returned is not fixed into the View: each
    call of the View evaluates the substitution again, so the View returns
    "Alice" before [person.name] is changed and "Bob" after. *)
Theorem default_display_not_fixed :
  let σ1 := after (new (Some f_interp) person) start in
  fst (fn_call f_interp person [] (world start)) = Ok (VStr "${person.name}") /\
  fst (new (Some f_interp) person start) = Ok v1 /\
  trace σ1 = [ECall f_interp person []] /\
  fst (call v1 [] σ1) = Ok (VStr "Alice") /\
  fst (call v1 [] (rename "Bob" σ1)) = Ok (VStr "Bob") /\
  trace (after (call v1 []) (rename "Bob" σ1)) = [ECall f_interp person []].
Proof. repeat split. Qed.

(** C10, on the code: the string made of one carriage return has no
    substitution and is left as it is by the escaping, and the template
    literal made from it has the value of one line feed; the View whose
    default display returns it returns a line feed. *)
Theorem escape_carriage_return :
  Text.has_substitution cr_text = false /\
  Text.escape cr_text = cr_text /\
  parse_return ("return `" +:+ Text.escape cr_text +:+ "`") = Some newline_text /\
  fst (fn_call f_cr person [] (world start)) = Ok (VStr cr_text) /\
  fst (call v1 [] (after (new (Some f_cr) person) start)) = Ok (VStr newline_text) /\
  newline_text <> cr_text.
Proof. repeat split; try reflexivity. discriminate. Qed.

(** C7, as amended, on the program: [answer] as a named display and as a
    default display. *)
Lemma non_string_results_witness :
  let σ1 := after (new None person) start in
  let σ2 := after (add v1 f_answer VUndefined) σ1 in
  fst (call_display v1 (fn_name f_answer) [] σ2) = Ok (VNum 42) /\
  fst (new (Some f_answer) person start) = Throw TypeError.
Proof.
  cbv zeta.
  destruct (non_string_results fn_name fn_call engine_parses engine_run
              object_replace inherited_call) as [Hnamed Hdefault].
  split.
  - etransitivity.
    + apply (Hnamed (after (new None person) start) v1
               (fresh_view start
                  (ThrowReferenceError "This view does not have a default display.")
                  person)
               f_answer VUndefined [] v1
               (after (add v1 f_answer VUndefined) (after (new None person) start)));
        reflexivity.
    + reflexivity.
  - unfold new. rewrite (Hdefault f_answer person start (VNum 42)); reflexivity.
Defined.

End DemoRuns.

(** * More of the class *)

Section MoreProperties.

Context {World : Type}.
Variable fn_name : fid -> string.
Variable fn_call : fid -> value -> list value -> World -> result value * World.
Variable engine_parses : string -> bool.
Variable engine_run : string -> value -> list value -> World -> result value * World.
Variable object_replace : value -> state World -> result string * World.
Variable inherited_call : string -> loc -> list value -> M World value.

Abbreviation new := (View_constructor fn_call engine_parses object_replace).
Abbreviation add := (addDisplay fn_name).
Abbreviation adds := (addDisplays fn_name).
Abbreviation call := (invoke engine_run).
Abbreviation call_display := (invoke_display fn_call engine_run inherited_call).
Abbreviation apply_fn := (call_function fn_call).

Implicit Types (σ : state World) (o : View) (v : loc) (x d : value) (k : string).

(** *** What the constructor leaves behind *)

Lemma View_constructor_Ok fn d σ v σ0 :
  new fn d σ = (Ok v, σ0) ->
  v = fresh (dom (views σ)) /\
  exists c,
    views σ0 =
    <[v := MkView c (<[_DATA := Property d true]> (function_props v)) None]> (views σ).
Proof.
  destruct fn as [f|].
  - rewrite (View_constructor_Some fn_call engine_parses object_replace). cbv zeta.
    rewrite (apply_fn_eq fn_call). cbn [fst snd].
    destruct (fst (fn_call f d [] (world σ))) as [x|]; [|discriminate].
    match goal with |- context [escaped object_replace x ?s] =>
      destruct (escaped_frame object_replace x s) as [Hv _];
      destruct (escaped object_replace x s) as [[t|e] σ2]
    end; cbn [fst snd views] in *; [|discriminate].
    destruct (Function_new _ _) as [c|]; [|discriminate].
    intros [= <- <-]. cbn [views]. rewrite Hv. unfold fresh_view. rewrite Hv. eauto.
  - rewrite (View_constructor_null fn_call engine_parses object_replace).
    intros [= <- <-]. cbn [views]. unfold fresh_view. eauto.
Qed.

Lemma View_constructor_Throw fn d σ e σ0 :
  new fn d σ = (Throw e, σ0) -> views σ0 = views σ.
Proof.
  destruct fn as [f|].
  - rewrite (View_constructor_Some fn_call engine_parses object_replace). cbv zeta.
    rewrite (apply_fn_eq fn_call). cbn [fst snd].
    destruct (fst (fn_call f d [] (world σ))) as [x|]; [|intros [= _ <-]; reflexivity].
    match goal with |- context [escaped object_replace x ?s] =>
      destruct (escaped_frame object_replace x s) as [Hv _];
      destruct (escaped object_replace x s) as [[t|e'] σ2]
    end; cbn [fst snd views] in *; [|intros [= _ <-]; exact Hv].
    destruct (Function_new _ _) as [c|]; [discriminate|].
    intros [= _ <-]. exact Hv.
  - rewrite (View_constructor_null fn_call engine_parses object_replace). discriminate.
Qed.

(** *** Views of the class *)

Lemma reserved_name_spec k :
  reserved_name k = true <->
  k = "name" \/ k = "length" \/ k = "arguments" \/ k = "caller".
Proof.
  unfold reserved_name. rewrite !orb_true_iff, !String.eqb_eq. tauto.
Qed.

Lemma put_reserved o k x :
  view_sealed o -> reserved_name k = true -> put o k x = Throw TypeError.
Proof.
  intros ([xn Hn] & [xl Hl] & Ha & Hc) Hk. apply reserved_name_spec in Hk.
  unfold put. destruct Hk as [-> | [-> | [-> | ->]]].
  - rewrite Hn. reflexivity.
  - rewrite Hl. reflexivity.
  - rewrite Ha. reflexivity.
  - rewrite Hc. reflexivity.
Qed.

Lemma put_not_reserved o k x o' :
  view_sealed o -> put o k x = Ok o' -> reserved_name k = false.
Proof.
  intros Hs Hput. destruct (reserved_name k) eqn:Hk; [|reflexivity].
  rewrite (put_reserved o k x Hs Hk) in Hput. discriminate.
Qed.

Lemma put_view_sealed o k x o' :
  view_sealed o -> put o k x = Ok o' -> view_sealed o'.
Proof.
  intros Hs Hput. pose proof (put_not_reserved o k x o' Hs Hput) as Hk.
  destruct (put_frame o k x o' Hput) as [_ Hframe].
  assert (Hne : forall k', reserved_name k' = true -> k' <> k).
  { intros k' Hk' ->. congruence. }
  destruct Hs as ([xn Hn] & [xl Hl] & Ha & Hc).
  repeat split.
  - exists xn. rewrite Hframe by (apply Hne; reflexivity). exact Hn.
  - exists xl. rewrite Hframe by (apply Hne; reflexivity). exact Hl.
  - rewrite Hframe by (apply Hne; reflexivity). exact Ha.
  - rewrite Hframe by (apply Hne; reflexivity). exact Hc.
Qed.

(** A property of Views that assignment keeps is kept by any sequence of
    [addDisplay] calls. *)
Lemma addDisplays_preserve (P : View -> Prop) v calls :
  (forall o k x o', P o -> put o k x = Ok o' -> P o') ->
  forall σ o, views σ !! v = Some o -> P o ->
  exists o', views (adds v calls σ) !! v = Some o' /\ P o'.
Proof.
  intros Hput. induction calls as [|[g a] calls IH]; intros σ o Hv HP; [eauto|].
  cbn [addDisplays].
  destruct (add v g a σ) as [[r|e] σ'] eqn:Hadd; cbn [snd].
  - rewrite (addDisplay_eq fn_name), Hv in Hadd.
    destruct (put o _ _) as [o1|] eqn:Hp; [|discriminate].
    injection Hadd as <- <-.
    apply (IH _ o1); [apply lookup_insert_eq | exact (Hput _ _ _ _ HP Hp)].
  - apply (addDisplay_throw fn_name) in Hadd as ->. eauto.
Qed.

(** Every View the constructor has made and [addDisplay] has extended is in
    the store, satisfies [view_inv] and is sealed. *)
Lemma class_view fn d σ v σ0 calls :
  new fn d σ = (Ok v, σ0) ->
  exists o, views (adds v calls σ0) !! v = Some o /\ view_inv o /\ view_sealed o.
Proof.
  intros Hnew. destruct (View_constructor_Ok fn d σ v σ0 Hnew) as (_ & c & Hviews).
  apply (addDisplays_preserve (fun o => view_inv o /\ view_sealed o) v calls)
    with (o := MkView c (<[_DATA := Property d true]> (function_props v)) None).
  - intros o k x o' [Hi Hs] Hput. split.
    + exact (put_view_inv o k x o' Hi Hput).
    + exact (put_view_sealed o k x o' Hs Hput).
  - rewrite Hviews. apply lookup_insert_eq.
  - split.
    + unfold view_inv, function_props. cbn [props].
      repeat apply map_Forall_insert_2; auto. apply map_Forall_empty.
    + repeat split; try (eexists; reflexivity); reflexivity.
Qed.




Lemma addDisplays_other_view v v' calls : forall σ,
  v' <> v -> views (adds v calls σ) !! v' = views σ !! v'.
Proof.
  induction calls as [|[g a] calls IH]; intros σ Hne; [reflexivity|].
  cbn [addDisplays]. rewrite IH by assumption.
  destruct (add v g a σ) as [[r|e] σ'] eqn:Hadd; cbn [snd].
  - rewrite (addDisplay_eq fn_name) in Hadd.
    destruct (views σ !! v) as [o|]; [|discriminate].
    destruct (put o _ _); [|discriminate].
    injection Hadd as <- <-. cbn. apply lookup_insert_ne. congruence.
  - apply (addDisplay_throw fn_name) in Hadd as ->. reflexivity.
Qed.

(** The result of calling a View depends on its code and on the world. *)
Lemma call_result_code σ σ' v args :
  code <$> views σ !! v = code <$> views σ' !! v -> world σ = world σ' ->
  fst (call v args σ) = fst (call v args σ').
Proof.
  unfold invoke, call_view. intros Hc Hw.
  destruct (views σ !! v) as [o|], (views σ' !! v) as [o'|]; try discriminate;
    [|reflexivity].
  injection Hc as Hc. rewrite Hc.
  destruct (code o'); cbn; try reflexivity.
  unfold in_world. rewrite Hw. destruct (engine_run _ _ _ _). reflexivity.
Qed.

(** Assignments under two names do not depend on their order. *)
Lemma put_commute o k1 x1 o1 k2 x2 o12 :
  k1 <> k2 -> put o k1 x1 = Ok o1 -> put o1 k2 x2 = Ok o12 ->
  exists o2, put o k2 x2 = Ok o2 /\ put o2 k1 x1 = Ok o12.
Proof.
  intros Hne H1 H2.
  assert (Hk2 : props o1 !! k2 = props o !! k2).
  { apply (put_frame _ _ _ _ H1). congruence. }
  assert (Hpp : String.eqb k1 "__proto__" && String.eqb k2 "__proto__" = false).
  { destruct (String.eqb_spec k1 "__proto__"), (String.eqb_spec k2 "__proto__");
      try reflexivity. congruence. }
  unfold put in *. rewrite Hk2 in H2.
  repeat match type of H1 with
         | context [match ?c with _ => _ end] => destruct c eqn:?; try discriminate
         end.
  all: injection H1 as <-; cbn [props code proto] in H2.
  all: repeat match type of H2 with
         | context [match ?c with _ => _ end] => destruct c eqn:?; try discriminate
         end.
  all: try discriminate Hpp.
  all: injection H2 as <-.
  all: eexists; (split; [reflexivity|]); cbn [props code proto].
  all: rewrite ?lookup_insert_ne by congruence.
  all: repeat match goal with
         | H : ?l = _ |- context [?l] => rewrite H
         end.
  all: cbn [orb]; rewrite ?(insert_insert_ne _ k1 k2) by congruence; reflexivity.
Qed.


(** *** Displays, once registered *)


(** *** Views do not share state *)

(** X5.  [addDisplay] calls on one View leave every other View as it was,
    and with it the result of calling that other View. *)
Theorem other_views_untouched σ v v' calls args w tr :
  v' <> v ->
  views (adds v calls σ) !! v' = views σ !! v' /\
  fst (call v' args (MkState w (views (adds v calls σ)) tr)) =
  fst (call v' args (MkState w (views σ) tr)).
Proof.
  intros Hne. pose proof (addDisplays_other_view v v' calls σ Hne) as Hv.
  split; [exact Hv|].
  apply call_result_code; [cbn [views]; rewrite Hv; reflexivity | reflexivity].
Qed.

(** X6.  The View the constructor returns is a new one: its reference named
    no View before, so it differs from every View made earlier, and the
    Views made earlier are left as they were. *)
Theorem constructor_allocates fn d σ v σ0 :
  new fn d σ = (Ok v, σ0) ->
  views σ !! v = None /\
  forall v' o', views σ !! v' = Some o' -> v' <> v /\ views σ0 !! v' = Some o'.
Proof.
  intros Hnew. destruct (View_constructor_Ok fn d σ v σ0 Hnew) as (-> & c & Hviews).
  pose proof (fresh_not_in σ) as Hfresh. split; [exact Hfresh|].
  intros v' o' Hv'. assert (Hne : v' <> fresh (dom (views σ))) by congruence.
  split; [exact Hne|]. rewrite Hviews, lookup_insert_ne by congruence. exact Hv'.
Qed.

(** X7.  A constructor that throws leaves no View behind: the store of Views
    is as before.  It was given a default display, which it has called
    once; with [null] the constructor does not throw. *)
Theorem constructor_failure fn d σ e σ0 :
  new fn d σ = (Throw e, σ0) ->
  views σ0 = views σ /\
  exists f, fn = Some f /\ trace σ0 = (trace σ ++ [ECall f d []])%list.
Proof.
  intros Hnew. split; [exact (View_constructor_Throw fn d σ e σ0 Hnew)|].
  destruct fn as [f|].
  - exists f. split; [reflexivity|].
    pose proof (View_constructor_trace fn_call engine_parses object_replace f d σ) as Ht.
    rewrite Hnew in Ht. exact Ht.
  - rewrite (View_constructor_null fn_call engine_parses object_replace) in Hnew.
    discriminate.
Qed.

(** *** The default display, once constructed *)

(** X8.  When the default display returns a string without [${], the
    constructor succeeds, without consulting the engine, and calling the
    View is pure from then on: after any sequence of [addDisplay] calls, in
    any world and with any arguments, the call returns the string, with
    CR LF and CR read as LF, and changes nothing; the default display is not
    called again. *)
Theorem default_display_pure f d σ s calls args w tr :
  fst (fn_call f d [] (world σ)) = Ok (VStr s) ->
  Text.has_substitution s = false ->
  exists v,
    fst (new (Some f) d σ) = Ok v /\
    call v args (MkState w (views (adds v calls (snd (new (Some f) d σ)))) tr) =
    (Ok (VStr (Text.normalize_newlines s)),
     MkState w (views (adds v calls (snd (new (Some f) d σ)))) tr).
Proof.
  intros Hf Hs.
  rewrite (View_constructor_plain fn_call engine_parses object_replace f d σ s Hf Hs).
  cbn [fst snd]. eexists. split; [reflexivity|].
  match goal with |- context [adds ?v calls ?s0] =>
    destruct (addDisplays_code fn_name v calls s0
                (fresh_view σ (ReturnString (Text.normalize_newlines s)) d))
      as (o' & Ho' & Hc'); [apply lookup_insert_eq|]
  end.
  eapply call_ReturnString; [exact Ho' | exact Hc'].
Qed.

(** X14.  Any sequence of [addDisplay] calls none of whose functions is named
    [_DATA] leaves the bound data of the View, [v._DATA], as it is. *)
Theorem bound_data_stable σ v o calls :
  views σ !! v = Some o ->
  Forall (fun c => fn_name (fst c) <> _DATA) calls ->
  exists o', views (adds v calls σ) !! v = Some o' /\ get_DATA o' = get_DATA o.
Proof. intros Hv Hall. exact (addDisplays_keep_DATA fn_name v calls σ o Hv Hall). Qed.

End MoreProperties.

(** *** The round trip of the default display, exactly *)

Section MoreTextFacts.
Import Text.

Lemma normalize_newlines_no_CR_aux n : forall s,
  String.length s <= n -> has_char CR (normalize_newlines s) = false.
Proof.
  induction n as [|n IH]; intros s Hn.
  - destruct s; [reflexivity | simpl in Hn; lia].
  - destruct s as [|a s]; [reflexivity|]. simpl in Hn.
    destruct (Ascii.eqb_spec a CR) as [->|Ha].
    + destruct s as [|b s]; [reflexivity|].
      destruct (Ascii.eqb_spec b LF) as [->|Hb].
      * change (normalize_newlines (String CR (String LF s)))
          with (String LF (normalize_newlines s)).
        cbn [has_char]. rewrite IH by (simpl in Hn; lia). reflexivity.
      * rewrite normalize_newlines_CR by assumption.
        cbn [has_char]. rewrite IH by lia. reflexivity.
    + rewrite normalize_newlines_skip by assumption.
      cbn [has_char]. apply Ascii.eqb_neq in Ha. rewrite Ha, IH by lia. reflexivity.
Qed.

Lemma normalize_newlines_no_CR s : has_char CR (normalize_newlines s) = false.
Proof. exact (normalize_newlines_no_CR_aux (String.length s) s (le_n _)). Qed.

(** X9.  For a string without [${], escaping it as the constructor does
    and reading the result back as a template literal gives the string
    itself exactly when the string has no carriage return. *)
Theorem round_trip_exact_iff s :
  has_substitution s = false ->
  (template_value (escape s +:+ "`") = Some s <-> has_char CR s = false).
Proof.
  intros Hs. rewrite template_value_escape, Hs. split.
  - intros [= H]. rewrite <- H. apply normalize_newlines_no_CR.
  - intros Hc. rewrite normalize_newlines_id by assumption. reflexivity.
Qed.

End MoreTextFacts.

(** ** The other version of the class *)

Section LegacyProperties.

Context {World : Type}.
Variable fn_name : fid -> string.
Variable fn_call : fid -> value -> list value -> World -> result value * World.
Variable engine_parses : string -> bool.
Variable engine_run : string -> value -> list value -> World -> result value * World.
Variable object_replace : value -> state World -> result string * World.
Variable engine_toString : value -> state World -> result value * World.

Abbreviation new := (View_constructor fn_call engine_parses object_replace).
Abbreviation legacy_new := (Legacy.View_constructor fn_call engine_parses engine_toString).
Abbreviation to_string := (Legacy.toString engine_toString).
Abbreviation call := (invoke engine_run).
Abbreviation apply_fn := (call_function fn_call).

Implicit Types (σ : state World) (o : View) (v : loc) (x d : value).

(** The constructor of the other version, step by step. *)
Lemma Legacy_View_constructor_eq fn d σ :
  legacy_new fn d σ =
  let first := match fn with
               | Some f => apply_fn f d [] σ
               | None => to_string d σ
               end in
  match fst first with
  | Throw e => (Throw e, snd first)
  | Ok (VStr s) =>
      match Function_new engine_parses ("return `" +:+ Text.escape s +:+ "`") with
      | Throw e => (Throw e, snd first)
      | Ok c =>
          (Ok (fresh (dom (views (snd first)))),
           MkState (world (snd first))
             (<[fresh (dom (views (snd first))) := fresh_view (snd first) c d]>
                (views (snd first)))
             (trace (snd first)))
      end
  | Ok _ => (Throw TypeError, snd first)
  end.
Proof.
  unfold Legacy.View_constructor, Legacy.generated. cbv zeta.
  unfold bind at 1. unfold bind at 1.
  destruct (match fn with Some f => apply_fn f d [] | None => to_string d end σ)
    as [[x|e] σ1] eqn:Hfirst.
  - assert (H1 : match fn with
                 | Some f => apply_fn f d [] σ
                 | None => to_string d σ
                 end = (Ok x, σ1)) by (destruct fn; exact Hfirst).
    rewrite H1. cbn [fst snd].
    destruct x; try reflexivity.
    unfold ret at 1. unfold bind at 1, lift.
    destruct (Function_new _ _) as [c|e]; [|reflexivity].
    apply alloc_assign_DATA.
  - assert (H1 : match fn with
                 | Some f => apply_fn f d [] σ
                 | None => to_string d σ
                 end = (Throw e, σ1)) by (destruct fn; exact Hfirst).
    rewrite H1. reflexivity.
Qed.

(** X10.  In the other version the constructor rejects every default
    display that does not return a string, objects included: it throws a
    TypeError after the one call of the display, and makes no View. *)
Theorem legacy_non_string_rejected f d σ x :
  fst (fn_call f d [] (world σ)) = Ok x ->
  is_string x = false ->
  legacy_new (Some f) d σ = (Throw TypeError, snd (apply_fn f d [] σ)).
Proof.
  intros Hf Hx. rewrite Legacy_View_constructor_eq. cbv zeta.
  rewrite (apply_fn_eq fn_call). cbn [fst snd]. rewrite Hf.
  destruct x; try reflexivity. discriminate.
Qed.

(** X11.  The two versions of the constructor agree on every default
    display that returns a string or throws: same result, same state. *)
Theorem legacy_agrees f d σ :
  match fst (fn_call f d [] (world σ)) with
  | Ok x => is_string x
  | Throw _ => true
  end = true ->
  legacy_new (Some f) d σ = new (Some f) d σ.
Proof.
  intros Hstr. rewrite Legacy_View_constructor_eq.
  rewrite (View_constructor_Some fn_call engine_parses object_replace). cbv zeta.
  rewrite (apply_fn_eq fn_call). cbn [fst snd].
  destruct (fst (fn_call f d [] (world σ))) as [x|e]; [|reflexivity].
  destruct x; try discriminate. reflexivity.
Qed.

(** X12.  Without a default display the other version shows
    [data.toString()]: when that is a string [s] without [${], the View
    returns [s], with CR LF and CR read as LF, at every call. *)
Theorem legacy_toString_default d σ s args w tr :
  fst (to_string d σ) = Ok (VStr s) ->
  Text.has_substitution s = false ->
  exists v,
    fst (legacy_new None d σ) = Ok v /\
    call v args (MkState w (views (snd (legacy_new None d σ))) tr) =
    (Ok (VStr (Text.normalize_newlines s)),
     MkState w (views (snd (legacy_new None d σ))) tr).
Proof.
  intros Hd Hs. rewrite Legacy_View_constructor_eq. cbv zeta. rewrite Hd.
  rewrite (Function_new_return engine_parses s Hs). cbn [fst snd].
  eexists. split; [reflexivity|].
  eapply call_ReturnString; [apply lookup_insert_eq | reflexivity].
Qed.

(** X13.  Without a default display and with [undefined] or [null] as data
    the constructor of the other version throws a TypeError, there being
    nothing to call [toString] on, and makes no View. *)
Theorem legacy_no_data d σ :
  d = VUndefined \/ d = VNull ->
  Legacy.View_constructor fn_call engine_parses engine_toString None d σ =
  (Throw TypeError, σ).
Proof. intros [-> | ->]; reflexivity. Qed.

End LegacyProperties.

(** ** The programs of [Demo] and [MoreDemo], run further *)

Section MoreRuns.
Import Demo.


(** X5 on the program: two Views, displays added to the second. *)
Lemma other_views_untouched_witness :
  let σ2 := after (new None person) (after (new (Some f_crlf) person) start) in
  v1 <> MoreDemo.v2 /\
  views (addDisplays fn_name MoreDemo.v2 [(f_who, VUndefined)] σ2) !! v1 =
  views σ2 !! v1.
Proof.
  cbv zeta. split; [discriminate|].
  apply (other_views_untouched fn_name engine_run
           (after (new None person) (after (new (Some f_crlf) person) start))
           MoreDemo.v2 v1 [(f_who, VUndefined)] [] (world start) []).
  discriminate.
Defined.

(** X6 on the program: the second View. *)
Lemma constructor_allocates_witness :
  let σ1 := after (new (Some f_crlf) person) start in
  new None person σ1 = (Ok MoreDemo.v2, after (new None person) σ1) /\
  views σ1 !! MoreDemo.v2 = None.
Proof.
  cbv zeta. split; [reflexivity|].
  apply (constructor_allocates fn_call engine_parses object_replace
           None person (after (new (Some f_crlf) person) start) MoreDemo.v2
           (after (new None person) (after (new (Some f_crlf) person) start))).
  reflexivity.
Defined.

(** X7 on the program: the default display that throws. *)
Lemma constructor_failure_witness :
  new (Some f_throw) person start =
  (Throw (Thrown (VStr "no")), after (new (Some f_throw) person) start) /\
  views (after (new (Some f_throw) person) start) = views start.
Proof.
  split; [reflexivity|].
  apply (constructor_failure fn_call engine_parses object_replace
           (Some f_throw) person start (Thrown (VStr "no"))
           (after (new (Some f_throw) person) start)).
  reflexivity.
Defined.

(** X8 on the program: the default display with CR LF, called after a display
    has been added and [person.name] has changed. *)
Lemma default_display_pure_witness :
  fst (fn_call f_crlf person [] (world start)) = Ok (VStr crlf_text) /\
  Text.has_substitution crlf_text = false /\
  exists v,
    fst (new (Some f_crlf) person start) = Ok v /\
    call v [VNum 1]
      (MkState (MkGlobals "Bob" 0)
         (views (addDisplays fn_name v [(f_who, VUndefined)]
                   (snd (new (Some f_crlf) person start)))) []) =
    (Ok (VStr (Text.normalize_newlines crlf_text)),
     MkState (MkGlobals "Bob" 0)
       (views (addDisplays fn_name v [(f_who, VUndefined)]
                 (snd (new (Some f_crlf) person start)))) []).
Proof.
  split; [reflexivity|]. split; [reflexivity|].
  apply (default_display_pure fn_name fn_call engine_parses engine_run object_replace
           f_crlf person start crlf_text [(f_who, VUndefined)] [VNum 1]
           (MkGlobals "Bob" 0) []); reflexivity.
Defined.

(** X9 on a string with a backslash and a backtick. *)
Lemma round_trip_exact_iff_witness :
  Text.has_substitution "a\b`c$" = false /\
  (Text.template_value (Text.escape "a\b`c$" +:+ "`") = Some "a\b`c$" <->
   Text.has_char Text.CR "a\b`c$" = false).
Proof.
  split; [reflexivity|]. apply (round_trip_exact_iff "a\b`c$"). reflexivity.
Defined.

(** X10 on the program: [answer] as default display of the other version. *)
Lemma legacy_non_string_rejected_witness :
  fst (fn_call f_answer person [] (world start)) = Ok (VNum 42) /\
  is_string (VNum 42) = false /\
  LegacyDemo.new (Some f_answer) person start =
  (Throw TypeError, snd (call_function fn_call f_answer person [] start)).
Proof.
  split; [reflexivity|]. split; [reflexivity|].
  apply (legacy_non_string_rejected fn_call engine_parses LegacyDemo.engine_toString
           f_answer person start (VNum 42)); reflexivity.
Defined.

(** X11 on the program: the default display with CR LF in both versions. *)
Lemma legacy_agrees_witness :
  LegacyDemo.new (Some f_crlf) person start = new (Some f_crlf) person start.
Proof.
  apply (legacy_agrees fn_call engine_parses object_replace
           LegacyDemo.engine_toString f_crlf person start).
  reflexivity.
Defined.

(** X12 on the program: [person] without default display shows
    "[object Object]". *)
Lemma legacy_toString_default_witness :
  fst (Legacy.toString LegacyDemo.engine_toString person start) =
    Ok (VStr "[object Object]") /\
  Text.has_substitution "[object Object]" = false /\
  exists v,
    fst (LegacyDemo.new None person start) = Ok v /\
    call v [] (MkState (world start)
                 (views (snd (LegacyDemo.new None person start))) []) =
    (Ok (VStr (Text.normalize_newlines "[object Object]")),
     MkState (world start) (views (snd (LegacyDemo.new None person start))) []).
Proof.
  split; [reflexivity|]. split; [reflexivity|].
  apply (legacy_toString_default fn_call engine_parses engine_run
           LegacyDemo.engine_toString person start "[object Object]" []
           (world start) []); reflexivity.
Defined.

(** X13 on the program: no default display and no data. *)
Lemma legacy_no_data_witness :
  LegacyDemo.new None VUndefined start = (Throw TypeError, start).
Proof.
  apply (legacy_no_data fn_call engine_parses LegacyDemo.engine_toString
           VUndefined start).
  left. reflexivity.
Defined.

(** X14 on the program: [who] and [answer] added, the data still "data". *)
Lemma bound_data_stable_witness :
  let σ0 := after (new None (VStr "data")) start in
  let o := fresh_view start
             (ThrowReferenceError "This view does not have a default display.")
             (VStr "data") in
  views σ0 !! v1 = Some o /\
  exists o',
    views (addDisplays fn_name v1 [(f_who, VUndefined); (f_answer, VNull)] σ0) !! v1 =
      Some o' /\
    get_DATA o' = get_DATA o.
Proof.
  cbv zeta. split; [reflexivity|].
  apply (bound_data_stable fn_name (after (new None (VStr "data")) start) v1
           (fresh_view start
              (ThrowReferenceError "This view does not have a default display.")
              (VStr "data"))
           [(f_who, VUndefined); (f_answer, VNull)]); [reflexivity|].
  repeat constructor; discriminate.
Defined.

End MoreRuns.

(** * The call [v.addDisplay(...)] *)

Section SendProperties.

Context {World : Type}.
Variable fn_name : fid -> string.
Variable fn_call : fid -> value -> list value -> World -> result value * World.
Variable engine_parses : string -> bool.
Variable engine_run : string -> value -> list value -> World -> result value * World.
Variable object_replace : value -> state World -> result string * World.
Variable inherited_call : string -> loc -> list value -> M World value.

Abbreviation new := (View_constructor fn_call engine_parses object_replace).
Abbreviation send := (send_addDisplay fn_name fn_call engine_run inherited_call).
Abbreviation sends := (send_addDisplays fn_name fn_call engine_run inherited_call).
Abbreviation call_display := (invoke_display fn_call engine_run inherited_call).

Implicit Types (σ : state World) (o : View) (v : loc) (x d : value) (k : string).

(** On a View without a property [addDisplay] of its own and with
    [View.prototype] as prototype the call runs the method. *)
Lemma send_method σ v o g a :
  views σ !! v = Some o ->
  props o !! "addDisplay" = None -> proto o = None ->
  send v g a σ =
  match put o (fn_name g) (VClosure g (bound_context o (default VUndefined a))) with
  | Ok o' => (Ok (VView v), MkState (world σ) (<[v := o']> (views σ)) (trace σ))
  | Throw e => (Throw e, σ)
  end.
Proof.
  intros Hv Hown Hproto. unfold send_addDisplay.
  rewrite Hv, Hown, Hproto, (addDisplay_eq fn_name), Hv.
  destruct (put o _ _); reflexivity.
Qed.

Lemma put_proto o k x o' :
  put o k x = Ok o' -> k <> "__proto__" -> proto o' = proto o.
Proof.
  unfold put. intros Hput Hk. apply String.eqb_neq in Hk.
  destruct (props o !! k) as [p|].
  - destruct (writable p); [|discriminate]. injection Hput as <-. reflexivity.
  - rewrite Hk in Hput. destruct (_ || _); [discriminate|].
    injection Hput as <-. reflexivity.
Qed.

Lemma plain_name_spec k :
  plain_name k = true <->
  reserved_name k = false /\ k <> "addDisplay" /\ k <> "__proto__" /\ k <> _DATA.
Proof.
  unfold plain_name. rewrite negb_true_iff, !orb_false_iff, !String.eqb_neq. tauto.
Qed.

(** Assignment under a name other than [addDisplay] and [__proto__] leaves
    the method in reach. *)
Lemma put_method_reachable o k x o' :
  put o k x = Ok o' -> k <> "addDisplay" -> k <> "__proto__" ->
  props o !! "addDisplay" = None /\ proto o = None ->
  props o' !! "addDisplay" = None /\ proto o' = None.
Proof.
  intros Hput H1 H2 [Hown Hproto]. split.
  - destruct (put_frame o k x o' Hput) as [_ ->]; [exact Hown | congruence].
  - rewrite (put_proto o k x o' Hput H2). exact Hproto.
Qed.

Lemma put_intact d o k x o' :
  intact d o -> plain_name k = true -> put o k x = Ok o' -> intact d o'.
Proof.
  intros (Hi & Hs & Hown & Hproto & Hd) Hk Hput.
  apply plain_name_spec in Hk as (_ & H1 & H2 & H3).
  destruct (put_method_reachable o k x o' Hput H1 H2 (conj Hown Hproto)) as [Hown' Hproto'].
  repeat split; try assumption.
  - exact (put_view_inv o k x o' Hi Hput).
  - destruct (put_view_sealed engine_parses engine_run inherited_call o k x o' Hs Hput) as (? & _). assumption.
  - destruct (put_view_sealed engine_parses engine_run inherited_call o k x o' Hs Hput) as (_ & ? & _). assumption.
  - destruct (put_view_sealed engine_parses engine_run inherited_call o k x o' Hs Hput) as (_ & _ & ? & _). assumption.
  - destruct (put_view_sealed engine_parses engine_run inherited_call o k x o' Hs Hput) as (_ & _ & _ & ?). assumption.
  - unfold get_DATA in *. destruct (put_frame o k x o' Hput) as [_ ->]; [exact Hd | congruence].
Qed.

(** The View the constructor stores. *)
Lemma constructed_intact c d v :
  intact d (MkView c (<[_DATA := Property d true]> (function_props v)) None).
Proof.
  repeat split; try (eexists; reflexivity); try reflexivity.
  unfold view_inv, function_props. cbn [props].
  repeat apply map_Forall_insert_2; auto. apply map_Forall_empty.
Qed.

(** Calls in a row keep what assignment keeps, as long as the method stays
    in reach, and they evaluate nothing. *)
Lemma sends_preserve (P : View -> Prop) (Q : string -> Prop) v calls :
  (forall o, P o -> props o !! "addDisplay" = None /\ proto o = None) ->
  (forall o k x o', P o -> Q k -> put o k x = Ok o' -> P o') ->
  forall σ o, views σ !! v = Some o -> P o ->
  Forall (fun c => Q (fn_name (fst c))) calls ->
  exists o', views (sends v calls σ) !! v = Some o' /\ P o' /\
             world (sends v calls σ) = world σ /\ trace (sends v calls σ) = trace σ.
Proof.
  intros Hreach Hput. induction calls as [|[g a] calls IH]; intros σ o Hv HP Hall;
    [eauto|].
  apply Forall_cons in Hall as [Hg Hall]. cbn [fst] in Hg. cbn [send_addDisplays].
  destruct (Hreach o HP) as [Hown Hproto].
  rewrite (send_method σ v o g a Hv Hown Hproto).
  destruct (put o _ _) as [o1|] eqn:Hp; cbn [snd].
  - match goal with |- context [sends v calls ?s] =>
      destruct (IH s o1) as (o' & Ho' & HP' & Hw & Ht);
        [apply lookup_insert_eq | exact (Hput _ _ _ _ HP Hg Hp) | exact Hall |]
    end.
    exists o'. repeat split; assumption.
  - apply (IH σ o); assumption.
Qed.

(** A View made for the data [d] and extended by calls with plain names is
    intact. *)
Lemma sends_intact fn d σ v σ0 calls :
  new fn d σ = (Ok v, σ0) ->
  Forall (fun c => plain_name (fn_name (fst c)) = true) calls ->
  exists o, views (sends v calls σ0) !! v = Some o /\ intact d o /\
            world (sends v calls σ0) = world σ0 /\ trace (sends v calls σ0) = trace σ0.
Proof.
  intros Hnew Hall.
  destruct (View_constructor_Ok fn_call engine_parses object_replace fn d σ v σ0 Hnew)
    as (_ & c & Hviews).
  apply (sends_preserve (intact d) (fun k => plain_name k = true) v calls)
    with (o := MkView c (<[_DATA := Property d true]> (function_props v)) None).
  - intros o (_ & _ & Hown & Hproto & _). split; assumption.
  - intros o k x o' Ho Hk Hp. exact (put_intact d o k x o' Ho Hk Hp).
  - rewrite Hviews. apply lookup_insert_eq.
  - apply constructed_intact.
  - exact Hall.
Qed.

Lemma bound_context_intact d o other :
  get_DATA o = d ->
  bound_context o (default VUndefined other) = context_for d other.
Proof. intros <-. destruct other as [[]|]; reflexivity. Qed.

(** On an intact View the call with a function of a plain name registers
    its closure and returns the View. *)
Lemma send_plain d σ v o g other :
  views σ !! v = Some o -> intact d o -> plain_name (fn_name g) = true ->
  exists o',
    put o (fn_name g) (VClosure g (context_for d other)) = Ok o' /\
    send v g other σ =
    (Ok (VView v), MkState (world σ) (<[v := o']> (views σ)) (trace σ)) /\
    intact d o' /\
    member o' (fn_name g) = Some (VClosure g (context_for d other)).
Proof.
  intros Hv Hint Hk. pose proof Hint as (Hi & _ & Hown & Hproto & Hd).
  pose proof Hk as Hk'. apply plain_name_spec in Hk' as (Hres & _).
  unfold reserved_name in Hres. rewrite !orb_false_iff, !String.eqb_neq in Hres.
  destruct Hres as [[[H1 H2] H3] H4].
  destruct (put_ok o (fn_name g) (VClosure g (context_for d other)) Hi H1 H2 H3 H4)
    as [o' Hput].
  exists o'. split; [exact Hput|].
  rewrite (send_method σ v o g other Hv Hown Hproto),
    (bound_context_intact d o other Hd), Hput.
  repeat split; try (destruct (put_intact d o _ _ o' Hint Hk Hput)
                       as (? & (? & ? & ? & ?) & ? & ? & ?); assumption).
  apply (put_member _ _ _ _ Hput). reflexivity.
Qed.

(** The call of a property that holds a closure of [addDisplay] is the call
    of the function in it. *)
Lemma call_display_fn_call σ v o k g t args :
  views σ !! v = Some o -> member o k = Some (VClosure g t) ->
  call_display v k args σ =
  (fst (fn_call g t args (world σ)),
   MkState (snd (fn_call g t args (world σ))) (views σ)
     (trace σ ++ [ECall g t args])).
Proof.
  intros Hv Hm.
  rewrite (call_display_closure fn_call engine_run inherited_call σ v o k g t args Hv Hm).
  apply apply_fn_eq.
Qed.


(** A View made by the constructor and extended by calls with names other
    than [addDisplay] and [__proto__] still has the method in reach, can be
    assigned to and is sealed; the calls have evaluated nothing. *)
Lemma sends_reachable fn d σ v σ0 calls :
  new fn d σ = (Ok v, σ0) ->
  Forall (fun c => fn_name (fst c) <> "addDisplay" /\ fn_name (fst c) <> "__proto__")
    calls ->
  exists o, views (sends v calls σ0) !! v = Some o /\
            (view_inv o /\ view_sealed o /\
             props o !! "addDisplay" = None /\ proto o = None) /\
            world (sends v calls σ0) = world σ0 /\
            trace (sends v calls σ0) = trace σ0.
Proof.
  intros Hnew Hall.
  destruct (View_constructor_Ok fn_call engine_parses object_replace fn d σ v σ0 Hnew)
    as (_ & c & Hviews).
  apply (sends_preserve
           (fun o => view_inv o /\ view_sealed o /\
                     props o !! "addDisplay" = None /\ proto o = None)
           (fun k => k <> "addDisplay" /\ k <> "__proto__") v calls)
    with (o := MkView c (<[_DATA := Property d true]> (function_props v)) None).
  - intros o (_ & _ & Hown & Hproto). split; assumption.
  - intros o k x o' (Hi & Hs & Hown & Hproto) [H1 H2] Hp.
    destruct (put_method_reachable o k x o' Hp H1 H2 (conj Hown Hproto)).
    split; [exact (put_view_inv o k x o' Hi Hp)|].
    split; [exact (put_view_sealed engine_parses engine_run inherited_call
                     o k x o' Hs Hp)|].
    split; assumption.
  - rewrite Hviews. apply lookup_insert_eq.
  - destruct (constructed_intact c d v) as (? & ? & ? & ? & _).
    split; [|split; [|split]]; assumption.
  - exact Hall.
Qed.

(** *** Claims about the call *)

(** C4, as amended.  Let [v] be a View the constructor made for the data [d]
    and calls [v.addDisplay(...)] with functions of plain names have
    extended, and let [g] have a plain name [n].  The call [v.addDisplay(g)]
    or [v.addDisplay(g, other)] returns [v] and changes nothing but the
    properties of [v]; from then on every call [v.n(args)], in whatever
    world [w], returns what [g] returns when it is called with exactly the
    arguments [args] in that world, and is one call of [g]: with context
    [other] when [other] is given and is not [undefined], with context [d],
    the bound data, when [other] is [undefined] or absent. *)
Theorem addDisplay_then_call fn d σ v σ0 calls g other w1 tr1 :
  new fn d σ = (Ok v, σ0) ->
  Forall (fun c => plain_name (fn_name (fst c)) = true) calls ->
  plain_name (fn_name g) = true ->
  exists vs,
    send v g other (MkState w1 (views (sends v calls σ0)) tr1) =
    (Ok (VView v), MkState w1 vs tr1) /\
    forall args w tr,
      call_display v (fn_name g) args (MkState w vs tr) =
      (fst (fn_call g (context_for d other) args w),
       MkState (snd (fn_call g (context_for d other) args w)) vs
         (tr ++ [ECall g (context_for d other) args])).
Proof.
  intros Hnew Hall Hg.
  destruct (sends_intact fn d σ v σ0 calls Hnew Hall) as (o & Hv & Hint & _).
  destruct (send_plain d (MkState w1 (views (sends v calls σ0)) tr1) v o g other
              Hv Hint Hg) as (o' & _ & Hsend & _ & Hm).
  cbn [world views trace] in Hsend.
  eexists. split; [exact Hsend|].
  intros args w tr.
  exact (call_display_fn_call (MkState w _ tr) v o' (fn_name g) g
           (context_for d other) args (lookup_insert_eq _ _ _) Hm).
Qed.


(** C6, as amended.  Let [v] be such a View and let the name of [g] be the
    empty string.  The call [v.addDisplay(g)] raises no error: it returns
    [v] and stores the closure of [g] as the property of [v] whose name is
    the empty string, leaving everything else as it was; the call of that
    property then returns what [g] returns. *)
Theorem addDisplay_empty_name fn d σ v σ0 calls g a w1 tr1 :
  new fn d σ = (Ok v, σ0) ->
  Forall (fun c => plain_name (fn_name (fst c)) = true) calls ->
  fn_name g = "" ->
  exists o,
    views (sends v calls σ0) !! v = Some o /\
    send v g a (MkState w1 (views (sends v calls σ0)) tr1) =
    (Ok (VView v),
     MkState w1
       (<[v := MkView (code o)
                 (<["" := Property (VClosure g (context_for d a)) true]> (props o))
                 (proto o)]> (views (sends v calls σ0)))
       tr1) /\
    forall args w tr,
      fst (call_display v "" args
             (MkState w
                (<[v := MkView (code o)
                          (<["" := Property (VClosure g (context_for d a)) true]> (props o))
                          (proto o)]> (views (sends v calls σ0)))
                tr)) =
      fst (fn_call g (context_for d a) args w).
Proof.
  intros Hnew Hall Hn.
  destruct (sends_intact fn d σ v σ0 calls Hnew Hall) as (o & Hv & Hint & _).
  assert (Hg : plain_name (fn_name g) = true) by (rewrite Hn; reflexivity).
  destruct (send_plain d (MkState w1 (views (sends v calls σ0)) tr1) v o g a
              Hv Hint Hg) as (o' & Hput & Hsend & _ & Hm).
  cbn [world views trace] in Hsend.
  assert (Ho' : o' = MkView (code o)
                       (<["" := Property (VClosure g (context_for d a)) true]> (props o))
                       (proto o)).
  { rewrite Hn in Hput. unfold put in Hput. destruct Hint as (Hi & _).
    destruct (props o !! "") as [p|] eqn:Hk.
    - destruct (Hi "" p Hk) as [Hw | [?|?]]; [|discriminate..].
      rewrite Hw in Hput. congruence.
    - cbn in Hput. congruence. }
  subst o'. exists o. split; [exact Hv|]. split; [exact Hsend|].
  intros args w tr. rewrite Hn in Hm.
  rewrite (call_display_fn_call (MkState w _ tr) v _ "" g (context_for d a) args
             (lookup_insert_eq _ _ _) Hm).
  reflexivity.
Qed.

(** *** What the call accepts and what it refuses *)

(** X1.  On a View that the constructor returned and that calls
    [v.addDisplay(...)] with functions of names other than [addDisplay] and
    [__proto__] have extended, the call [v.addDisplay(g, a)] with a function
    whose name is not one of [name], [length], [arguments], [caller]
    succeeds: it returns the View itself, so that calls can be chained.
    Neither it nor the calls before it have evaluated anything: world and
    trace are those the constructor left. *)
Theorem addDisplay_accepts fn d σ v σ0 calls g a :
  new fn d σ = (Ok v, σ0) ->
  Forall (fun c => fn_name (fst c) <> "addDisplay" /\ fn_name (fst c) <> "__proto__")
    calls ->
  reserved_name (fn_name g) = false ->
  exists σ2,
    send v g a (sends v calls σ0) = (Ok (VView v), σ2) /\
    world σ2 = world σ0 /\ trace σ2 = trace σ0.
Proof.
  intros Hnew Hall Hk.
  destruct (sends_reachable fn d σ v σ0 calls Hnew Hall)
    as (o & Hv & (Hinv & _ & Hown & Hproto) & Hw & Ht).
  unfold reserved_name in Hk. rewrite !orb_false_iff, !String.eqb_neq in Hk.
  destruct Hk as [[[H1 H2] H3] H4].
  destruct (put_ok o (fn_name g)
              (VClosure g (bound_context o (default VUndefined a))) Hinv H1 H2 H3 H4)
    as [o' Hput].
  rewrite (send_method _ v o g a Hv Hown Hproto), Hput.
  eexists. split; [reflexivity|]. split; assumption.
Qed.

(** X2.  On such a View the call [v.addDisplay(g, a)] with a function named
    [name], [length], [arguments] or [caller] throws a TypeError and changes
    nothing: the assignment [this[fn.name] = ...] is strict code and these
    properties of a function object cannot be assigned to. *)
Theorem addDisplay_refuses fn d σ v σ0 calls g a :
  new fn d σ = (Ok v, σ0) ->
  Forall (fun c => fn_name (fst c) <> "addDisplay" /\ fn_name (fst c) <> "__proto__")
    calls ->
  reserved_name (fn_name g) = true ->
  send v g a (sends v calls σ0) = (Throw TypeError, sends v calls σ0).
Proof.
  intros Hnew Hall Hk.
  destruct (sends_reachable fn d σ v σ0 calls Hnew Hall)
    as (o & Hv & (_ & Hs & Hown & Hproto) & _).
  rewrite (send_method _ v o g a Hv Hown Hproto),
    (put_reserved engine_parses engine_run inherited_call o _ _ Hs Hk).
  reflexivity.
Qed.

(** X4.  On a View made by the constructor and extended by calls with plain
    names, two displays with different plain names can be registered in
    either order: all four calls return the View, and afterwards the View
    answers with the same display and the same context under every name,
    whichever order was taken. *)
Theorem addDisplay_order fn d σ v σ0 calls g1 a1 g2 a2 :
  new fn d σ = (Ok v, σ0) ->
  Forall (fun c => plain_name (fn_name (fst c)) = true) calls ->
  plain_name (fn_name g1) = true -> plain_name (fn_name g2) = true ->
  fn_name g1 <> fn_name g2 ->
  exists σa σb σ12 σ21 o12 o21,
    send v g1 a1 (sends v calls σ0) = (Ok (VView v), σa) /\
    send v g2 a2 σa = (Ok (VView v), σ12) /\
    send v g2 a2 (sends v calls σ0) = (Ok (VView v), σb) /\
    send v g1 a1 σb = (Ok (VView v), σ21) /\
    views σ12 !! v = Some o12 /\ views σ21 !! v = Some o21 /\
    forall k, member o12 k = member o21 k.
Proof.
  intros Hnew Hall Hg1 Hg2 Hne.
  destruct (sends_intact fn d σ v σ0 calls Hnew Hall) as (o & Hv & Hint & _).
  set (σ1 := sends v calls σ0) in *.
  destruct (send_plain d σ1 v o g1 a1 Hv Hint Hg1) as (o1 & Hp1 & Hs1 & Hint1 & _).
  destruct (send_plain d (MkState (world σ1) (<[v := o1]> (views σ1)) (trace σ1))
              v o1 g2 a2 (lookup_insert_eq _ _ _) Hint1 Hg2)
    as (o12 & Hp12 & Hs12 & _ & _).
  destruct (send_plain d σ1 v o g2 a2 Hv Hint Hg2) as (o2 & Hp2 & Hs2 & Hint2 & _).
  destruct (send_plain d (MkState (world σ1) (<[v := o2]> (views σ1)) (trace σ1))
              v o2 g1 a1 (lookup_insert_eq _ _ _) Hint2 Hg1)
    as (o21 & Hp21 & Hs21 & _ & _).
  destruct (put_commute o _ _ o1 _ _ o12 Hne Hp1 Hp12) as (o2' & Hp2' & Hp21').
  assert (o2' = o2) by congruence. subst o2'.
  assert (o21 = o12) by congruence. subst o21.
  do 4 eexists. exists o12, o12.
  split; [exact Hs1|]. split; [exact Hs12|]. split; [exact Hs2|]. split; [exact Hs21|].
  cbn [views]. rewrite !lookup_insert_eq. repeat split.
Qed.

End SendProperties.

(** ** The calls of the programs, run *)

Section SendRuns.
Import Demo.


(** C4, as amended, on the program: after [answer], [who] is added with the
    context "other" and called when [person.name] has changed. *)
Lemma addDisplay_then_call_witness :
  let σ0 := after (new None (VStr "data")) start in
  let earlier := [(f_answer, None)] in
  new None (VStr "data") start = (Ok v1, σ0) /\
  Forall (fun c => plain_name (fn_name (fst c)) = true) earlier /\
  plain_name (fn_name f_who) = true /\
  exists vs,
    Calls.send v1 f_who (Some (VStr "other"))
      (MkState (world start) (views (Calls.sends v1 earlier σ0)) []) =
    (Ok (VView v1), MkState (world start) vs []) /\
    fst (call_display v1 (fn_name f_who) [VNum 1]
           (MkState (MkGlobals "Bob" 0) vs [])) = Ok (VStr "other").
Proof.
  cbv zeta.
  assert (Hall : Forall (fun c : fid * option value => plain_name (fn_name (fst c)) = true)
                   [(f_answer, None)]) by (repeat constructor).
  split; [reflexivity|]. split; [exact Hall|]. split; [reflexivity|].
  destruct (addDisplay_then_call fn_name fn_call engine_parses engine_run object_replace
              inherited_call None (VStr "data") start v1
              (after (new None (VStr "data")) start) [(f_answer, None)]
              f_who (Some (VStr "other")) (world start) [] eq_refl Hall eq_refl)
    as (vs & Hsend & Hcall).
  exists vs. split; [exact Hsend|].
  unfold call_display. rewrite (Hcall [VNum 1] (MkGlobals "Bob" 0) []). reflexivity.
Defined.


(** C6, as amended, on the program: [f_span], whose name is empty. *)
Lemma addDisplay_empty_name_witness :
  let σ0 := after (new None person) start in
  new None person start = (Ok v1, σ0) /\
  fn_name f_span = "" /\
  fst (Calls.send v1 f_span None (MkState (world start) (views (Calls.sends v1 [] σ0)) []))
  = Ok (VView v1) /\
  fst (call_display v1 "" []
         (snd (Calls.send v1 f_span None
                 (MkState (world start) (views (Calls.sends v1 [] σ0)) [])))) =
  Ok (VStr "<span>Alice</span>").
Proof.
  cbv zeta. split; [reflexivity|]. split; [reflexivity|].
  destruct (addDisplay_empty_name fn_name fn_call engine_parses engine_run object_replace
              inherited_call None person start v1 (after (new None person) start) []
              f_span None (world start) [] eq_refl (List.Forall_nil _) eq_refl)
    as (o & Hv & Hsend & Hcall).
  unfold Calls.send, Calls.sends. rewrite Hsend. cbn [fst snd]. split; [reflexivity|].
  unfold call_display. rewrite (Hcall [] (world start) []). reflexivity.
Defined.

(** X1 on the program: [who] added after [_DATA] and [length] have been
    tried. *)
Lemma addDisplay_accepts_witness :
  let σ0 := after (new None (VStr "data")) start in
  let earlier := [(f_DATA, None); (MoreDemo.f_length, None)] in
  new None (VStr "data") start = (Ok v1, σ0) /\
  reserved_name (Calls.fn_name f_who) = false /\
  exists σ2,
    Calls.shadow_send v1 f_who None (Calls.shadow_sends v1 earlier σ0) =
    (Ok (VView v1), σ2) /\
    world σ2 = world σ0 /\ trace σ2 = trace σ0.
Proof.
  cbv zeta. split; [reflexivity|]. split; [reflexivity|].
  apply (addDisplay_accepts Calls.fn_name Calls.fn_call engine_parses engine_run
           object_replace inherited_call None (VStr "data") start v1
           (after (new None (VStr "data")) start)
           [(f_DATA, None); (MoreDemo.f_length, None)] f_who None).
  - reflexivity.
  - repeat constructor; discriminate.
  - reflexivity.
Defined.

(** X2 on the program: [function length() {}] is refused. *)
Lemma addDisplay_refuses_witness :
  let σ0 := after (new None person) start in
  new None person start = (Ok v1, σ0) /\
  reserved_name (Calls.fn_name MoreDemo.f_length) = true /\
  Calls.shadow_send v1 MoreDemo.f_length None (Calls.shadow_sends v1 [(f_who, None)] σ0) =
  (Throw TypeError, Calls.shadow_sends v1 [(f_who, None)] σ0).
Proof.
  cbv zeta. split; [reflexivity|]. split; [reflexivity|].
  apply (addDisplay_refuses Calls.fn_name Calls.fn_call engine_parses engine_run
           object_replace inherited_call None person start v1
           (after (new None person) start) [(f_who, None)] MoreDemo.f_length None).
  - reflexivity.
  - repeat constructor; discriminate.
  - reflexivity.
Defined.

(** X4 on the program: [who] and [answer] in the two orders. *)
Lemma addDisplay_order_witness :
  let σ0 := after (new None person) start in
  new None person start = (Ok v1, σ0) /\
  plain_name (fn_name f_who) = true /\ plain_name (fn_name f_answer) = true /\
  fn_name f_who <> fn_name f_answer /\
  exists σa σb σ12 σ21 o12 o21,
    Calls.send v1 f_who None (Calls.sends v1 [] σ0) = (Ok (VView v1), σa) /\
    Calls.send v1 f_answer None σa = (Ok (VView v1), σ12) /\
    Calls.send v1 f_answer None (Calls.sends v1 [] σ0) = (Ok (VView v1), σb) /\
    Calls.send v1 f_who None σb = (Ok (VView v1), σ21) /\
    views σ12 !! v1 = Some o12 /\ views σ21 !! v1 = Some o21 /\
    forall k, member o12 k = member o21 k.
Proof.
  cbv zeta. split; [reflexivity|]. split; [reflexivity|]. split; [reflexivity|].
  split; [discriminate|].
  apply (addDisplay_order fn_name fn_call engine_parses engine_run object_replace
           inherited_call None person start v1 (after (new None person) start) []
           f_who None f_answer None eq_refl (List.Forall_nil _) eq_refl eq_refl).
  discriminate.
Defined.

End SendRuns.
